(** * AdvancedNoisePatterns: a shallow embedding of [AdvancedNoisePatterns.py]

    The node generates a batch of four-channel latent frames, one per
    timestamp, from one of five procedural noise families.

    Numeric model.  Python floats and the elements of the torch tensors that
    the generators build are modelled as real numbers, in exact arithmetic:
    the embedding has no rounding and no overflow.  The properties below
    that depend on either say so in their hypotheses ([schedule_in_range],
    [float32_range]); line 123 is modelled a second time in binary64
    ([energy_factor_binary64]) where a claim is about its exact value.  What
    the source does beyond the reals is written out:
    - a Python float division by zero raises [ZeroDivisionError];
    - a Python float power of a negative base to a fractional exponent yields
      a complex number and the call goes on with it: the embedding has no
      complex numbers and stops there ([Beyond ComplexValue]), which is not
      an exception and says nothing of what the code returns;
    - a torch tensor division by zero does not raise: it yields NaN for 0/0
      and an infinity otherwise, so the tensors after the min-max
      normalisation hold values of type [fval];
    - [torch.rand] reads a global generator: the generator state is threaded
      explicitly through the monad [M]. *)

From Stdlib Require Import Reals Lra Lia ZArith SpecFloat.
From stdpp Require Import base gmap strings list.

Local Open Scope R_scope.

(** ** Exceptions, results and the generator-state monad *)

(** The Python exceptions the source can raise. *)
Inductive exn : Type :=
  | ZeroDivisionError
  | KeyError (key : string)
  | KeyErrorIndex (index : Z)
  | AttributeError
  | ValueError
  | IndexError
  | UnboundLocalError
  | RuntimeError.

(** What the code goes on with where the embedding cannot follow: a complex
    number, or the keys of a mapping met where a sequence of floats is
    expected. *)
Inductive beyond : Type :=
  | ComplexValue
  | MappingAsSequence.

(** How a run of the embedding ends without a value: the code raised an
    exception, or it went on beyond what the embedding represents. *)
Inductive stop : Type :=
  | Raised (e : exn)
  | Beyond (b : beyond).

Inductive result (A : Type) : Type :=
  | Ok (a : A)
  | Stop (s : stop).
Arguments Ok {A} a.
Arguments Stop {A} s.

(** The code raised [e]. *)
Abbreviation Err e := (Stop (Raised e)).

#[global] Instance result_ret : MRet result := fun A a => Ok a.
#[global] Instance result_bind : MBind result := fun A B f m =>
  match m with Ok a => f a | Stop s => Stop s end.

(** The state of torch's global random generator: the stream of uniform
    samples it is going to deliver. *)
Definition rng : Type := nat -> R.

Definition M (A : Type) : Type := rng -> result (A * rng).

#[global] Instance M_ret : MRet M := fun A a g => Ok (a, g).
#[global] Instance M_bind : MBind M := fun A B f m g =>
  match m g with Ok (a, g') => f a g' | Stop s => Stop s end.

Definition lift {A} (r : result A) : M A := fun g =>
  match r with Ok a => Ok (a, g) | Stop s => Stop s end.

Definition raise {A} (e : exn) : M A := fun _ => Err e.

(** [for x in xs: s = body s x] *)
Fixpoint for_in {A S : Type} (xs : list A) (body : S -> A -> M S) (s : S) : M S :=
  match xs with
  | [] => mret s
  | x :: rest => s' ← body s x; for_in rest body s'
  end.

Definition enumerate {A} (l : list A) : list (nat * A) :=
  zip (seq 0 (length l)) l.

(** ** Python scalar arithmetic *)

Definition py_div (x y : R) : result R :=
  if Req_dec_T y 0 then Err ZeroDivisionError else Ok (x / y).

(** [x ** y] on floats, for a fractional exponent [y] (the source only
    raises to [0.3]).  For a negative base Python returns a complex number
    and raises nothing: the embedding stops with [Beyond ComplexValue]. *)
Definition py_pow (x y : R) : result R :=
  if Rlt_dec 0 x then Ok (Rpower x y)
  else if Req_dec_T x 0 then
    if Rlt_dec 0 y then Ok 0
    else if Req_dec_T y 0 then Ok 1 else Err ZeroDivisionError
  else Stop (Beyond ComplexValue).

(** [int(x)]: truncation towards zero. *)
Definition py_int (x : R) : Z :=
  if Rle_dec 0 x then Int_part x else (- Int_part (- x))%Z.

(** ** Tensors: a shape and the row-major data *)

Record tensor (A : Type) : Type := Tensor { shape : list nat; data : list A }.
Arguments Tensor {A} shape data.
Arguments shape {A} t.
Arguments data {A} t.

Definition numel (sh : list nat) : nat := foldr Nat.mul 1%nat sh.

Definition tmap {A B} (f : A -> B) (t : tensor A) : tensor B :=
  Tensor (shape t) (map f (data t)).

(** Element-wise binary operation; every use in the source combines two
    tensors of one shape. *)
Definition tmap2 {A B C} (f : A -> B -> C) (a : tensor A) (b : tensor B) : tensor C :=
  Tensor (shape a) (zip_with f (data a) (data b)).

Definition tabulate2 {A} (n m : nat) (f : nat -> nat -> A) : tensor A :=
  Tensor [n; m] (flat_map (fun i => map (f i) (seq 0 m)) (seq 0 n)).

Definition list_min (x : R) (l : list R) : R := foldl Rmin x l.
Definition list_max (x : R) (l : list R) : R := foldl Rmax x l.

Module torch.

Definition zeros {A} (zero : A) (sh : list nat) : tensor A :=
  Tensor sh (replicate (numel sh) zero).

(** [torch.linspace(start, end, steps)]; with one step the only point is
    [start] (the product by [INR 0] vanishes). *)
Definition linspace (start stop : R) (steps : nat) : tensor R :=
  Tensor [steps]
    (map (fun i => start + INR i * ((stop - start) / INR (steps - 1)))
         (seq 0 steps)).

(** [torch.meshgrid(a, b)] with the default "ij" indexing: both grids have
    shape [(len a, len b)]; the first varies along axis 0, the second
    along axis 1. *)
Definition meshgrid (a b : tensor R) : tensor R * tensor R :=
  let n := length (data a) in
  let m := length (data b) in
  (tabulate2 n m (fun i _ => nth i (data a) 0),
   tabulate2 n m (fun _ j => nth j (data b) 0)).

(** [t.min()] and [t.max()] raise on an empty tensor. *)
Definition min (t : tensor R) : result R :=
  match data t with
  | [] => Err RuntimeError
  | x :: l => Ok (list_min x l)
  end.

Definition max (t : tensor R) : result R :=
  match data t with
  | [] => Err RuntimeError
  | x :: l => Ok (list_max x l)
  end.

(** [torch.min(t, dim=1)[0]] on a 2-D tensor: the minimum of every row;
    raises [IndexError] when the reduced dimension is empty. *)
Definition min_dim1 (t : tensor R) : result (tensor R) :=
  match shape t with
  | [r; c] =>
      match c with
      | O => Err IndexError
      | S c' =>
          Ok (Tensor [r]
                (map (fun i =>
                        let row := take c (drop (i * c) (data t)) in
                        list_min (nth 0 row 0) (tail row))
                     (seq 0 r)))
      end
  | _ => Err IndexError
  end.

(** [t.reshape(shape)] raises unless the number of elements agrees. *)
Definition reshape {A} (t : tensor A) (sh : list nat) : result (tensor A) :=
  if decide (numel sh = length (data t)) then Ok (Tensor sh (data t))
  else Err RuntimeError.

(** [torch.rand(n, 2)]: [n] rows of two uniform samples, drawn in row-major
    order from the global generator; a negative [n] is refused. *)
Definition rand2 (n : Z) : M (list (R * R)) := fun g =>
  if decide (n < 0)%Z then Err RuntimeError
  else
    let k := Z.to_nat n in
    Ok (map (fun i => (g (2 * i)%nat, g (2 * i + 1)%nat)) (seq 0 k),
        fun i => g (2 * k + i)%nat).

(** Bilinear sampling of a 2-D field at normalised coordinates [(x, y)],
    [align_corners=False], samples outside the field read as zero (the
    default padding of [grid_sample]). *)
Definition pixel (input : tensor R) (H W : nat) (r c : Z) : R :=
  if decide (0 <= r < Z.of_nat H ∧ 0 <= c < Z.of_nat W)%Z
  then nth (Z.to_nat r * W + Z.to_nat c) (data input) 0
  else 0.

Definition bilinear (input : tensor R) (H W : nat) (x y : R) : R :=
  let ix := ((x + 1) * INR W - 1) / 2 in
  let iy := ((y + 1) * INR H - 1) / 2 in
  let x0 := Int_part ix in
  let y0 := Int_part iy in
  let wx := ix - IZR x0 in
  let wy := iy - IZR y0 in
  pixel input H W y0 x0 * (1 - wx) * (1 - wy)
  + pixel input H W y0 (x0 + 1) * wx * (1 - wy)
  + pixel input H W (y0 + 1) x0 * (1 - wx) * wy
  + pixel input H W (y0 + 1) (x0 + 1) * wx * wy.

(** [grid_sample(input[None, None], stack([gx, gy]).permute(1, 2, 0)[None],
    align_corners=False)[0, 0]]: the output has the shape of the sampling
    grid, and cell [(i, j)] samples the input at [(gx[i, j], gy[i, j])];
    an input with an empty spatial dimension is refused. *)
Definition grid_sample (input gx gy : tensor R) : result (tensor R) :=
  match shape input with
  | [H; W] =>
      if decide (H = 0 ∨ W = 0)%nat then Err RuntimeError
      else
        Ok (Tensor (shape gx)
              (zip_with (bilinear input H W) (data gx) (data gy)))
  | _ => Err RuntimeError
  end.

End torch.

(** ** Tensor elements after a tensor division *)

Inductive fval : Type :=
  | Fin (x : R)
  | Inf (negative : bool)
  | NaN.

Definition is_neg (x : R) : bool := if Rlt_dec x 0 then true else false.

(** [x / d] as torch computes it. *)
Definition fdiv (x d : R) : fval :=
  if Req_dec_T d 0 then
    if Req_dec_T x 0 then NaN else Inf (is_neg x)
  else Fin (x / d).

(** [v * s] for a finite scalar [s]. *)
Definition fscale (v : fval) (s : R) : fval :=
  match v with
  | Fin x => Fin (x * s)
  | Inf neg => if Req_dec_T s 0 then NaN else Inf (xorb neg (is_neg s))
  | NaN => NaN
  end.

Definition fsin (v : fval) : fval :=
  match v with
  | Fin x => Fin (sin x)
  | _ => NaN
  end.

Definition ftanh (v : fval) : fval :=
  match v with
  | Fin x => Fin (tanh x)
  | Inf neg => Fin (if neg then -1 else 1)
  | NaN => NaN
  end.

(** [batch[i, c] = value] on a 4-D batch: the 2-D value is broadcast to the
    slot [(H, W)] when torch allows it, and the assignment raises
    otherwise. *)
Definition broadcast_to (v : tensor fval) (H W : nat) : option (list fval) :=
  match shape v with
  | [h; w] =>
      if decide (h = H ∧ w = W) then Some (data v)
      else if decide ((h = H ∨ h = 1%nat) ∧ (w = W ∨ w = 1%nat)) then
        Some (flat_map (fun r =>
                map (fun c =>
                       nth ((if decide (h = 1%nat) then 0 else r) * w
                            + (if decide (w = 1%nat) then 0 else c))%nat
                           (data v) NaN)
                    (seq 0 W))
              (seq 0 H))
      else None
  | _ => None
  end.

Definition setitem (batch : tensor fval) (i c : nat) (value : tensor fval)
  : result (tensor fval) :=
  match shape batch with
  | [B; C; H; W] =>
      if decide (i < B ∧ c < C)%nat then
        match broadcast_to value H W with
        | Some d =>
            let off := ((i * C + c) * (H * W))%nat in
            Ok (Tensor (shape batch)
                  (take off (data batch) ++ d
                   ++ drop (off + H * W) (data batch)))
        | None => Err RuntimeError
        end
      else Err IndexError
  | _ => Err IndexError
  end.

(** ** The five generators *)

Definition sigmoid (x : R) : R := 1 / (1 + exp (- x)).

Definition tscale (t : tensor R) (s : R) : tensor R := tmap (fun x => x * s) t.
Definition tshift (t : tensor R) (s : R) : tensor R := tmap (fun x => x + s) t.
Definition tadd (a b : tensor R) : tensor R := tmap2 Rplus a b.
Definition tsub (a b : tensor R) : tensor R := tmap2 Rminus a b.
Definition tmul (a b : tensor R) : tensor R := tmap2 Rmult a b.

Definition generate_simplex (shape : nat * nat) (freq : R) : tensor R :=
  let coords :=
    torch.meshgrid (torch.linspace (- PI) PI shape.1)
                   (torch.linspace (- PI) PI shape.2) in
  tmul
    (tmap tanh
       (tmul (tmap sin (tscale coords.1 freq))
             (tmap cos (tscale (tscale coords.2 freq) 1.5))))
    (tmap sigmoid
       (tmul (tmap cos (tscale (tscale coords.1 freq) 0.7))
             (tmap sin (tscale (tscale coords.2 freq) 2)))).

(** The [(H*W, N)] matrix
    [sqrt((x.reshape(-1, 1) - px) ** 2 + (y.reshape(-1, 1) - py) ** 2)]. *)
Definition distance_matrix (x y : tensor R) (px py : list R) : tensor R :=
  Tensor [length (data x); length px]
    (flat_map (fun cell =>
                 zip_with (fun p0 p1 =>
                             sqrt ((cell.1 - p0) ^ 2 + (cell.2 - p1) ^ 2))
                          px py)
              (zip (data x) (data y))).

Definition generate_cellular (shape : nat * nat) (numPoints : Z) (chaos_factor : R)
  : M (tensor R) :=
  u ← torch.rand2 numPoints;
  let points :=
    map (fun p => (p.1 * INR shape.1 * chaos_factor,
                   p.2 * INR shape.2 * chaos_factor)) u in
  let x := tabulate2 shape.1 shape.2 (fun i _ => INR i) in
  let y := tabulate2 shape.1 shape.2 (fun _ j => INR j) in
  distances1 ← lift (
    m ← torch.min_dim1
          (distance_matrix x y (map fst points) (map snd points));
    torch.reshape m [shape.1; shape.2]);
  distances2 ← lift (
    m ← torch.min_dim1
          (distance_matrix x y (map (fun p => p.1 * 1.5) points)
                               (map (fun p => p.2 * 0.8) points));
    torch.reshape m [shape.1; shape.2]);
  mret (tmul (tmap sin (tscale distances1 0.2))
             (tmap cos (tscale distances2 0.15))).

Definition generate_fbm (shape : nat * nat) (octaves : Z)
    (persistence lacunarity chaos : R) : tensor R :=
  let step (st : tensor R * R * R) : tensor R * R * R :=
    let '(noise, amplitude, frequency) := st in
    (tadd noise
       (tmap (Rmult amplitude) (generate_simplex shape (frequency * chaos))),
     amplitude * (persistence * (1 + chaos * 0.2)),
     frequency * (lacunarity * (1 + chaos * 0.1))) in
  let '(noise, _, _) :=
    Nat.iter (Z.to_nat octaves) step
      (torch.zeros 0 [shape.1; shape.2], 1, 1) in
  tmap tanh noise.

Definition generate_wave (shape : nat * nat) (frequency : R) (phases : R * R)
  : tensor R :=
  let x := torch.linspace (- PI) PI shape.2 in
  let y := torch.linspace (- PI) PI shape.1 in
  let '(xx, yy) := torch.meshgrid x y in
  let wave1 :=
    tmul (tmap sin (tshift (tscale xx frequency) phases.1))
         (tmap cos (tshift (tscale (tscale yy frequency) 1.3) phases.2)) in
  let wave2 :=
    tmul (tmap cos (tshift (tscale (tscale xx frequency) 0.7) phases.2))
         (tmap sin (tshift (tscale (tscale yy frequency) 1.7) phases.1)) in
  let wave3 :=
    tmul (tmap sin (tscale (tscale (tadd xx yy) frequency) 0.5))
         (tmap cos (tscale (tscale (tsub xx yy) frequency) 0.8)) in
  tmap (fun v => v / 3) (tadd (tadd wave1 wave2) wave3).

Definition domain_warp (noise : tensor R) (warp_factor timestamp : R)
  : result (tensor R) :=
  match shape noise with
  | [height; width] =>
      let '(grid_x, grid_y) :=
        torch.meshgrid (torch.linspace (-1) 1 width)
                       (torch.linspace (-1) 1 height) in
      let warp0 :=
        tadd grid_x
          (tmul (tmap (Rmult warp_factor)
                   (tmap sin (tmap (Rplus (6 * PI * timestamp)) (tscale grid_y 2))))
                (tmap cos (tscale grid_x 3))) in
      let warp1 :=
        tadd grid_y
          (tmul (tmap (Rmult warp_factor)
                   (tmap cos (tmap (Rplus (6 * PI * timestamp)) (tscale grid_x 2))))
                (tmap sin (tscale grid_y 3))) in
      warped ← torch.grid_sample noise warp0 warp1;
      mret (tmap tanh (tscale warped 2))
  | _ => Err ValueError
  end.

(** ** Parameters *)

Inductive pyval : Type :=
  | VList (l : list R)
  | VDict (d : gmap string R).

(** The defaults, in the insertion order the merge loop iterates them. *)
Definition default_noise_params : list (string * pyval) :=
  [ ("timestamps", VList [0; 0.5; 1]);
    ("simplex", VDict {[ "intensity" := 1 ]});
    ("cellular", VDict {[ "intensity" := 1 ]});
    ("fbm", VDict (<[ "intensity" := 1 ]> {[ "persistence" := 0.5 ]}));
    ("wave", VDict {[ "intensity" := 1 ]});
    ("domain_warp", VDict {[ "intensity" := 1 ]}) ]%string.

(** [for key in default_noise_params: if key not in noise_params: ...] *)
Definition merge_defaults (noise_params : gmap string pyval) : gmap string pyval :=
  foldl (fun m kv =>
           match m !! kv.1 with
           | Some _ => m
           | None => <[ kv.1 := kv.2 ]> m
           end)
        noise_params default_noise_params.

(** [m[key]] *)
Definition get_item (m : gmap string pyval) (key : string) : result pyval :=
  match m !! key with
  | Some v => Ok v
  | None => Err (KeyError key)
  end.

(** [len(v)] *)
Definition py_len (v : pyval) : nat :=
  match v with
  | VList l => length l
  | VDict d => size d
  end.

(** The entry [m[key]] when it is the sequence of floats the input contract
    asks for under "timestamps"; the properties name the timestamps through
    it.  [body] reads the entry itself: a mapping stored there has a length
    and is iterated over its keys, which are no floats. *)
Definition get_list (m : gmap string pyval) (key : string) : result (list R) :=
  v ← get_item m key;
  match v with
  | VList l => Ok l
  | VDict _ => Stop (Beyond MappingAsSequence)
  end.

(** [m[key]] followed by [.get] on it, which a list does not have. *)
Definition get_dict (m : gmap string pyval) (key : string) : result (gmap string R) :=
  v ← get_item m key;
  match v with
  | VDict d => Ok d
  | VList _ => Err AttributeError
  end.

(** [l[-1]] *)
Definition py_last (l : list R) : result R :=
  match last l with
  | Some x => Ok x
  | None => Err IndexError
  end.

(** ** The per-timestamp schedule *)

Definition time_scale_of (timestamp : R) (timestamps : list R) : result R :=
  final ← py_last timestamps;
  ratio ← py_div timestamp final;
  py_pow ratio 0.3.

Definition energy_factor_of (intensity time_scale : R) : R :=
  intensity * (1 + exp (time_scale * 2) - 1).

Definition chaos_of (timestamp : R) : R :=
  0.5 + Rabs (sin (timestamp * 10)) * 2.

(** Line 123 once more, in the arithmetic the interpreter uses.  Python
    floats are binary64 and every operation rounds to nearest, ties to even
    ([SpecFloat]); [np.exp] is a library function whose result is taken as
    an argument here. *)
Module binary64.

Definition prec : Z := 53.
Definition emax : Z := 1024.

Definition mul : spec_float -> spec_float -> spec_float := SFmul prec emax.



End binary64.


(** ** Dispatch on the noise family

    [persistence] is a local of [generate_advanced_noise] that the fbm branch
    assigns: the dispatch returns its value after the branch. *)
Definition dispatch (noise_type : string) (latent_height latent_width : nat)
    (timestamp energy_factor chaos persistence : R) : M (tensor R * R) :=
  if decide (noise_type = "simplex"%string) then
    let freq := 1 + energy_factor * 30 in
    mret (generate_simplex (latent_height, latent_width) freq, persistence)
  else if decide (noise_type = "cellular"%string) then
    let points := py_int (3 + energy_factor * 150) in
    base_noise ← generate_cellular (latent_height, latent_width) points chaos;
    mret (base_noise, persistence)
  else if decide (noise_type = "fbm"%string) then
    let octaves := py_int (2 + energy_factor * 6) in
    let persistence := 0.2 + energy_factor * 0.8 in
    let lacunarity := 1.2 + energy_factor * 4 in
    mret (generate_fbm (latent_height, latent_width) octaves persistence
            lacunarity chaos, persistence)
  else if decide (noise_type = "wave"%string) then
    let freq := 0.3 + energy_factor * 12 in
    let phase_x := timestamp * 8 * PI * chaos in
    let phase_y := timestamp * 6 * PI * (2 - chaos) in
    mret (generate_wave (latent_height, latent_width) freq (phase_x, phase_y),
          persistence)
  else if decide (noise_type = "domain_warp"%string) then
    let base_noise := generate_simplex (latent_height, latent_width) (2 * chaos) in
    let warp_factor := 0.1 + energy_factor * 1.2 in
    base_noise ← lift (domain_warp base_noise warp_factor timestamp);
    mret (base_noise, persistence)
  else raise UnboundLocalError.

(** [(base_noise - base_noise.min()) / (base_noise.max() - base_noise.min())] *)
Definition normalize (base_noise : tensor R) : result (tensor fval) :=
  lo ← torch.min base_noise;
  hi ← torch.max base_noise;
  mret (tmap (fun x => fdiv (x - lo) (hi - lo)) base_noise).

(** The value assigned to [noise_batch[i, c]]. *)
Definition channel (base_noise : tensor fval) (energy_factor chaos : R) (c : nat)
  : tensor fval :=
  let channel_phase := INR c * PI / 2 * chaos in
  let channel_noise :=
    tmap (fun v => fscale (fsin (fscale v (8 + channel_phase))) energy_factor)
         base_noise in
  tmap (fun v => ftanh (fscale v 2)) channel_noise.

Record locals : Type := Locals { l_noise_batch : tensor fval; l_persistence : R }.

(** What one iteration knows when it reaches the normalisation: the field
    of the selected generator and the schedule of its timestamp. *)
Record field : Type := Field {
  f_base : tensor R;
  f_energy : R;
  f_chaos : R
}.

Definition prepare (noise_type : string) (latent_height latent_width : nat)
    (intensity : R) (timestamps : list R) (persistence timestamp : R)
  : M (field * R) :=
  time_scale ← lift (time_scale_of timestamp timestamps);
  let energy_factor := energy_factor_of intensity time_scale in
  let chaos := chaos_of timestamp in
  '(base_noise, persistence) ←
    dispatch noise_type latent_height latent_width timestamp energy_factor chaos
      persistence;
  mret (Field base_noise energy_factor chaos, persistence).

Definition iteration (noise_type : string) (latent_height latent_width : nat)
    (intensity : R) (timestamps : list R) (st : locals) (it : nat * R) : M locals :=
  let '(i, timestamp) := it in
  '(f, persistence) ←
    prepare noise_type latent_height latent_width intensity timestamps
      (l_persistence st) timestamp;
  base_noise ← lift (normalize (f_base f));
  noise_batch ←
    for_in (seq 0 4)
      (fun batch c =>
         lift (setitem batch i c (channel base_noise (f_energy f) (f_chaos f) c)))
      (l_noise_batch st);
  mret (Locals noise_batch persistence).

(** ** The node function *)

Record latent : Type := Latent { samples : tensor fval }.

Definition body (noise_params : gmap string pyval) (width height : nat)
    (noise_type : string) : M (latent * list R) :=
  timestamps ← lift (get_item noise_params "timestamps");
  if decide (py_len timestamps = 0%nat) then
    mret (Latent (torch.zeros (Fin 0) [1; 4; height / 8; width / 8]%nat), [0])
  else
    let batch_size := py_len timestamps in
    let latent_height := (height / 8)%nat in
    let latent_width := (width / 8)%nat in
    let noise_batch :=
      torch.zeros (Fin 0) [batch_size; 4%nat; latent_height; latent_width] in
    base_params ← lift (get_dict noise_params noise_type);
    let intensity := default 1 (base_params !! "intensity"%string) in
    let persistence := default 0.5 (base_params !! "persistence"%string) in
    match timestamps with
    | VList timestamps =>
        st ← for_in (enumerate timestamps)
               (iteration noise_type latent_height latent_width intensity
                  timestamps)
               (Locals noise_batch persistence);
        mret (Latent (l_noise_batch st), timestamps)
    | VDict _ =>
        (* a mapping that is not empty: the first iteration evaluates
           [timestamps[-1]] *)
        raise (KeyErrorIndex (-1))
    end.

(** What a call leaves behind: the caller's mapping object after the call
    (the merge loop writes into it), and the returned pair or the raised
    exception together with the generator state. *)
Record outcome : Type := Outcome {
  caller_params : gmap string pyval;
  returned : result (latent * list R * rng)
}.

Definition generate_advanced_noise (noise_params : gmap string pyval)
    (width height : nat) (noise_type analysis_type : string) (g : rng) : outcome :=
  if decide (noise_params = ∅) then
    (* [noise_params = default_noise_params] rebinds the local name only *)
    Outcome noise_params
      (body (list_to_map default_noise_params) width height noise_type g)
  else
    let merged := merge_defaults noise_params in
    Outcome merged (body merged width height noise_type g).

(** * Vocabulary of the properties *)

(** ** Shapes and inputs *)

(** A 2-D tensor of shape [(n, m)] that holds [n * m] elements. *)
Definition has_shape {A} (t : tensor A) (n m : nat) : Prop :=
  shape t = [n; m] ∧ length (data t) = (n * m)%nat.

(** [width] and [height] as [INPUT_TYPES] declares them. *)
Definition valid_size (n : nat) : Prop :=
  (64 <= n <= 2048)%nat ∧ (n mod 8 = 0)%nat.

#[global] Instance valid_size_dec (n : nat) : Decision (valid_size n).
Proof. unfold valid_size. apply _. Defined.

(** The noise types [INPUT_TYPES] offers. *)
Definition known_type (noise_type : string) : Prop :=
  noise_type ∈ ["simplex"; "cellular"; "fbm"; "wave"; "domain_warp"]%string.

#[global] Instance known_type_dec (noise_type : string) :
  Decision (known_type noise_type).
Proof. unfold known_type. apply _. Defined.

(** The families whose field has the orientation of the batch slot. *)
Definition keeps_orientation (noise_type : string) : Prop :=
  noise_type ≠ "wave"%string ∧ noise_type ≠ "domain_warp"%string.

#[global] Instance keeps_orientation_dec (noise_type : string) :
  Decision (keeps_orientation noise_type).
Proof. unfold keeps_orientation. apply _. Defined.

Definition defaults_map : gmap string pyval := list_to_map default_noise_params.

(** The mapping the body of the function reads. *)
Definition effective_params (noise_params : gmap string pyval) : gmap string pyval :=
  if decide (noise_params = ∅) then defaults_map else noise_params ∪ defaults_map.

(** The value a computation returns from a given generator state. *)
Definition call {A} (m : M A) (g : rng) : result A :=
  match m g with
  | Ok (a, _) => Ok a
  | Stop s => Stop s
  end.

(** A generator state whose first sample is one half and whose other
    samples are zero. *)
Definition half_then_zero : rng :=
  fun k => match k with O => 1 / 2 | S _ => 0 end.

(** ** The cellular generator *)

(** The seed points one call draws: sample [2k] and [2k+1] of the generator,
    scaled by the shape and the chaos factor. *)
Definition seed_points (shape : nat * nat) (numPoints : Z) (chaos_factor : R)
    (g : rng) : list (R * R) :=
  map (fun k => (g (2 * k)%nat * INR shape.1 * chaos_factor,
                 g (2 * k + 1)%nat * INR shape.2 * chaos_factor))
      (seq 0 (Z.to_nat numPoints)).

(** Euclidean distance from [(x, y)] to the point [p]. *)
Definition euclid (x y : R) (p : R * R) : R :=
  sqrt ((x - p.1) ^ 2 + (y - p.2) ^ 2).

(** Distance from [(x, y)] to the nearest of the points. *)
Definition min_distance (pts : list (R * R)) (x y : R) : R :=
  let ds := map (euclid x y) pts in
  list_min (nth 0 ds 0) (tail ds).

(** The scaling the second distance field applies to a seed point. *)
Definition anisotropic (p : R * R) : R * R := (p.1 * 1.5, p.2 * 0.8).

(** The cellular generator as the specification words it (section 4.3), not
    as the source has it, for comparison with [generate_cellular]: the second
    distance field measures distances to a second seed set, drawn
    independently of the first and then scaled by [(1.5, 0.8)]. *)
Definition generate_cellular_independent (shape : nat * nat) (numPoints : Z)
    (chaos_factor : R) : M (tensor R) :=
  u1 ← torch.rand2 numPoints;
  u2 ← torch.rand2 numPoints;
  let scale (u : list (R * R)) :=
    map (fun p => (p.1 * INR shape.1 * chaos_factor,
                   p.2 * INR shape.2 * chaos_factor)) u in
  let points1 := scale u1 in
  let points2 := scale u2 in
  let x := tabulate2 shape.1 shape.2 (fun i _ => INR i) in
  let y := tabulate2 shape.1 shape.2 (fun _ j => INR j) in
  distances1 ← lift (
    m ← torch.min_dim1
          (distance_matrix x y (map fst points1) (map snd points1));
    torch.reshape m [shape.1; shape.2]);
  distances2 ← lift (
    m ← torch.min_dim1
          (distance_matrix x y (map (fun p => p.1 * 1.5) points2)
                               (map (fun p => p.2 * 0.8) points2));
    torch.reshape m [shape.1; shape.2]);
  mret (tmul (tmap sin (tscale distances1 0.2))
             (tmap cos (tscale distances2 0.15))).

(** ** Frames *)

(** [l[off : off + len(v)] = v] on the row-major data of a tensor. *)
Definition write_at {A} (off : nat) (v l : list A) : list A :=
  take off l ++ v ++ drop (off + length v) l.

(** One frame: the field of its timestamp and the normalised field. *)
Record frame : Type := Frame { fr_field : field; fr_norm : tensor fval }.

(** The four channels of a frame, in channel order. *)
Definition frame_pixels (fr : frame) : list fval :=
  flat_map
    (fun c => data (channel (fr_norm fr) (f_energy (fr_field fr))
                      (f_chaos (fr_field fr)) c))
    (seq 0 4).

(** The frames of the timestamps [ts], computed in order: what the loop of
    [generate_advanced_noise] does, without the batch. *)
Fixpoint frames_of (noise_type : string) (H W : nat) (intensity : R)
    (timestamps ts : list R) (persistence : R) : M (list frame * R) :=
  match ts with
  | [] => mret ([], persistence)
  | timestamp :: rest =>
      '(f, persistence) ← prepare noise_type H W intensity timestamps persistence
                            timestamp;
      norm ← lift (normalize (f_base f));
      '(frames, persistence) ← frames_of noise_type H W intensity timestamps rest
                                 persistence;
      mret (Frame f norm :: frames, persistence)
  end.

(** A field all of whose values are equal. *)
Definition constant_field (t : tensor R) : Prop :=
  ∀ x y, In x (data t) -> In y (data t) -> x = y.

(** ** Results up to the local [persistence] *)

Definition forget_persistence {A} (r : result (A * R * rng)) : result (A * rng) :=
  match r with
  | Ok ((a, _), g) => Ok (a, g)
  | Stop s => Stop s
  end.

Definition batch_of (r : result (locals * rng)) : result (tensor fval * rng) :=
  match r with
  | Ok (st, g) => Ok (l_noise_batch st, g)
  | Stop s => Stop s
  end.

(** ** Grids, purity and the samples a call draws *)

(** Point [i] of [torch.linspace(start, stop, steps)]. *)
Definition linspace_point (start stop : R) (steps i : nat) : R :=
  start + INR i * ((stop - start) / INR (steps - 1)).

(** A computation that neither reads nor advances the random generator. *)
Definition generator_free {A} (m : M A) : Prop :=
  ∃ r : result A, ∀ g, m g = lift r g.

(** The real [time_scale] of a timestamp whose ratio to the final one is
    non-negative. *)
Definition time_scale_value (timestamp final : R) : R :=
  if Rlt_dec 0 (timestamp / final) then Rpower (timestamp / final) 0.3 else 0.

(** The number of seed points the cellular branch asks for at a timestamp. *)
Definition cellular_points (intensity final timestamp : R) : nat :=
  Z.to_nat (py_int (3 + energy_factor_of intensity
                           (time_scale_value timestamp final) * 150)).

(** The samples the cellular family draws over a list of timestamps. *)
Definition cellular_draws (intensity final : R) (ts : list R) : nat :=
  list_sum (map (fun t => (2 * cellular_points intensity final t)%nat) ts).

(** An energy factor up to which the counts derived from it, at most 1503
    seed points and 62 octaves, are sizes that [torch.rand] allocates and
    loops that end; Python floats of this magnitude are far from the
    overflow of binary64, where [int()] raises [OverflowError]. *)
Definition schedule_bound : R := 10.

(** The schedule of timestamp [t] stays within [schedule_bound]: neither
    [np.exp] nor the energy factor comes near an infinity, and the seed
    points and octaves asked for are counts the code can work through. *)
Definition schedule_in_range (intensity final t : R) : Prop :=
  exp (2 * time_scale_value t final) <= schedule_bound
  ∧ energy_factor_of intensity (time_scale_value t final) <= schedule_bound.

(** A magnitude far inside the float32 range of the tensors (whose largest
    value is about 3.4e38): a Python float within it, multiplied by the
    constants of the code, is still finite when it meets a tensor. *)
Definition float32_bound : R := 10 ^ 30.

Definition float32_range (x : R) : Prop := Rabs x <= float32_bound.

(** A field all of whose values lie in [-1, 1]. *)
Definition unit_range (t : tensor R) : Prop :=
  Forall (fun v => -1 <= v <= 1) (data t).

(** The simplex formula at point [i] of the height grid and point [j] of the
    width grid. *)
Definition simplex_value (H W : nat) (freq : R) (i j : nat) : R :=
  let x := linspace_point (- PI) PI H i in
  let y := linspace_point (- PI) PI W j in
  tanh (sin (x * freq) * cos (y * freq * 1.5))
  * sigmoid (cos (x * freq * 0.7) * sin (y * freq * 2)).

(** The amplitude of octave [k] of the fbm sum, and the frequency that
    octave [k] hands to [generate_simplex]. *)
Definition fbm_amplitude (persistence chaos : R) (k : nat) : R :=
  (persistence * (1 + chaos * 0.2)) ^ k.

Definition fbm_frequency (lacunarity chaos : R) (k : nat) : R :=
  (lacunarity * (1 + chaos * 0.1)) ^ k * chaos.

(** The first [n] octaves of the fbm sum at cell [(i, j)]. *)
Fixpoint fbm_sum (H W : nat) (persistence lacunarity chaos : R) (i j n : nat) : R :=
  match n with
  | O => 0
  | S k =>
      fbm_sum H W persistence lacunarity chaos i j k
      + fbm_amplitude persistence chaos k
        * simplex_value H W (fbm_frequency lacunarity chaos k) i j
  end.



(** A batch element that is NaN or of magnitude at most [bound]. *)
Definition amplitude_within (bound : R) (v : fval) : Prop :=
  match v with
  | Fin x => - bound <= x <= bound
  | Inf _ => False
  | NaN => True
  end.

(** * Properties *)

(** ** Real-number facts used by the generators *)

Lemma tanh_bounds (x : R) : -1 < tanh x < 1.
Proof.
  unfold tanh, sinh, cosh.
  pose proof (exp_pos x) as Hp.
  pose proof (exp_pos (- x)) as Hn.
  replace ((exp x - exp (- x)) / 2 / ((exp x + exp (- x)) / 2))
    with ((exp x - exp (- x)) / (exp x + exp (- x))) by (field; lra).
  split.
  - apply Rmult_lt_reg_r with (exp x + exp (- x)); [lra|].
    unfold Rdiv. rewrite Rmult_assoc, Rinv_l by lra. lra.
  - apply Rmult_lt_reg_r with (exp x + exp (- x)); [lra|].
    unfold Rdiv. rewrite Rmult_assoc, Rinv_l by lra. lra.
Qed.

Lemma chaos_of_bounds (timestamp : R) : 0.5 <= chaos_of timestamp <= 2.5.
Proof.
  unfold chaos_of.
  pose proof (Rabs_pos (sin (timestamp * 10))) as H0.
  assert (Rabs (sin (timestamp * 10)) <= 1) as H1.
  { apply Rabs_le. apply SIN_bound. }
  lra.
Qed.

Lemma energy_factor_of_exp (intensity time_scale : R) :
  energy_factor_of intensity time_scale = intensity * exp (2 * time_scale).
Proof.
  unfold energy_factor_of.
  replace (time_scale * 2) with (2 * time_scale) by ring. ring.
Qed.

Lemma energy_factor_of_nonneg (intensity time_scale : R) :
  0 <= intensity -> 0 <= energy_factor_of intensity time_scale.
Proof.
  intros Hi. rewrite energy_factor_of_exp.
  apply Rmult_le_pos; [done | left; apply exp_pos].
Qed.

Lemma py_int_ge (x : R) (k : Z) : IZR k <= x -> (0 <= k)%Z -> (k <= py_int x)%Z.
Proof.
  intros Hk Hk0. unfold py_int.
  assert (0 <= x) as Hx by (apply Rle_trans with (IZR k); [apply IZR_le; lia | done]).
  destruct (Rle_dec 0 x) as [_|Hn]; [|contradiction].
  destruct (base_Int_part x) as [_ Hup].
  apply Z.lt_succ_r. apply lt_IZR. rewrite succ_IZR. lra.
Qed.

(** ** Minimum and maximum of a list *)

Lemma list_min_le_init (l : list R) (x : R) : list_min x l <= x.
Proof.
  unfold list_min. revert x. induction l as [|y l IH]; intros x; simpl; [lra|].
  etransitivity; [apply IH | apply Rmin_l].
Qed.

Lemma list_min_le (l : list R) (x y : R) : In y l -> list_min x l <= y.
Proof.
  unfold list_min. revert x. induction l as [|z l IH]; intros x; simpl; [tauto|].
  intros [->|Hin].
  - etransitivity; [apply (list_min_le_init l) | apply Rmin_r].
  - by apply IH.
Qed.

Lemma list_min_in (l : list R) (x : R) : In (list_min x l) (x :: l).
Proof.
  unfold list_min. revert x. induction l as [|z l IH]; intros x; simpl; [tauto|].
  destruct (IH (Rmin x z)) as [Heq|Hin]; [|tauto].
  unfold Rmin in Heq at 1. destruct (Rle_dec x z); simpl in *; tauto.
Qed.




(** ** Shapes *)

Lemma tabulate2_has_shape {A} (n m : nat) (f : nat -> nat -> A) :
  has_shape (tabulate2 n m f) n m.
Proof.
  split; [done|]. simpl.
  rewrite (flat_map_constant_length (c := m)).
  - by rewrite length_seq.
  - intros i _. by rewrite length_map, length_seq.
Qed.

Lemma tmap_has_shape {A B} (f : A -> B) (t : tensor A) (n m : nat) :
  has_shape t n m -> has_shape (tmap f t) n m.
Proof. intros [Hs Hl]. split; simpl; [done|]. by rewrite length_map. Qed.

Lemma tmap2_has_shape {A B C} (f : A -> B -> C) (a : tensor A) (b : tensor B)
    (n m : nat) :
  has_shape a n m -> has_shape b n m -> has_shape (tmap2 f a b) n m.
Proof.
  intros [Hs Hl] [Hs' Hl']. split; simpl; [done|].
  rewrite length_zip_with. lia.
Qed.

Lemma linspace_length (start stop : R) (steps : nat) :
  length (data (torch.linspace start stop steps)) = steps.
Proof. simpl. by rewrite length_map, length_seq. Qed.

Lemma meshgrid_has_shape (a b : tensor R) :
  has_shape (torch.meshgrid a b).1 (length (data a)) (length (data b))
  ∧ has_shape (torch.meshgrid a b).2 (length (data a)) (length (data b)).
Proof. split; apply tabulate2_has_shape. Qed.

Lemma zeros_has_shape {A} (z : A) (n m : nat) :
  has_shape (torch.zeros z [n; m]) n m.
Proof. split; [done|]. simpl. rewrite length_replicate. lia. Qed.

Ltac shapes :=
  cbv zeta; unfold tscale, tshift, tadd, tsub, tmul;
  repeat first
    [ assumption
    | apply tmap_has_shape
    | apply tmap2_has_shape
    | apply tabulate2_has_shape
    | apply zeros_has_shape ].

Lemma generate_simplex_has_shape (H W : nat) (freq : R) :
  has_shape (generate_simplex (H, W) freq) H W.
Proof.
  unfold generate_simplex. cbn [fst snd].
  pose proof (meshgrid_has_shape (torch.linspace (- PI) PI H)
                (torch.linspace (- PI) PI W)) as [H0 H1].
  rewrite !linspace_length in H0, H1.
  shapes.
Qed.

(** The wave generator builds its grids from [x] (of length [shape[1]]) first:
    its field has shape [(W, H)]. *)
Lemma generate_wave_has_shape (H W : nat) (frequency : R) (phases : R * R) :
  has_shape (generate_wave (H, W) frequency phases) W H.
Proof.
  unfold generate_wave. cbn [fst snd].
  pose proof (meshgrid_has_shape (torch.linspace (- PI) PI W)
                (torch.linspace (- PI) PI H)) as [H0 H1].
  rewrite !linspace_length in H0, H1.
  destruct (torch.meshgrid _ _) as [xx yy]. cbn [fst snd] in *.
  shapes.
Qed.

Lemma generate_fbm_has_shape (H W : nat) (octaves : Z)
    (persistence lacunarity chaos : R) :
  has_shape (generate_fbm (H, W) octaves persistence lacunarity chaos) H W.
Proof.
  unfold generate_fbm. cbn [fst snd].
  set (step := fun st : tensor R * R * R => _).
  assert (forall n, has_shape
            (Nat.iter n step (torch.zeros 0 [H; W], 1, 1)).1.1 H W) as Hiter.
  { induction n as [|n IH]; simpl; [shapes|].
    destruct (Nat.iter n step _) as [[noise amplitude] frequency].
    cbn [fst snd] in *. subst step. cbn [fst snd].
    pose proof (generate_simplex_has_shape H W (frequency * chaos)).
    shapes. }
  specialize (Hiter (Z.to_nat octaves)).
  destruct (Nat.iter _ step _) as [[noise amplitude] frequency].
  cbn [fst snd] in *. shapes.
Qed.

(** The warp samples on a grid built from [width] first: a field of shape
    [(H, W)] that is not empty comes back with shape [(W, H)]. *)
Lemma domain_warp_has_shape (noise : tensor R) (H W : nat)
    (warp_factor timestamp : R) :
  has_shape noise H W -> (0 < H)%nat -> (0 < W)%nat ->
  ∃ warped, domain_warp noise warp_factor timestamp = Ok warped
            ∧ has_shape warped W H.
Proof.
  intros [Hs Hl] HH HW. unfold domain_warp. rewrite Hs.
  pose proof (meshgrid_has_shape (torch.linspace (-1) 1 W)
                (torch.linspace (-1) 1 H)) as [H0 H1].
  rewrite !linspace_length in H0, H1.
  destruct (torch.meshgrid _ _) as [grid_x grid_y]. cbn [fst snd] in *.
  unfold torch.grid_sample. rewrite Hs.
  destruct (decide _) as [[?|?]|_]; [lia | lia |].
  cbn [mbind result_bind mret result_ret].
  eexists. split; [reflexivity|].
  apply tmap_has_shape. unfold tscale. apply tmap_has_shape.
  split; cbn [shape data].
  - unfold tadd, tmap2. cbn [shape]. apply H0.
  - rewrite length_zip_with. unfold tadd, tmul, tscale, tmap2, tmap. cbn [data].
    rewrite !length_zip_with, !length_map.
    destruct H0 as [_ ->], H1 as [_ ->]. lia.
Qed.

(** An empty field is refused by [grid_sample]. *)
Lemma domain_warp_empty (noise : tensor R) (H W : nat)
    (warp_factor timestamp : R) :
  has_shape noise H W -> (H = 0 ∨ W = 0)%nat ->
  domain_warp noise warp_factor timestamp = Err RuntimeError.
Proof.
  intros [Hs _] Hzero. unfold domain_warp. rewrite Hs.
  destruct (torch.meshgrid _ _) as [grid_x grid_y].
  unfold torch.grid_sample. rewrite Hs.
  by destruct (decide _) as [_|?].
Qed.

Lemma domain_warp_shape_of (noise warped : tensor R) (H W : nat)
    (warp_factor timestamp : R) :
  has_shape noise H W ->
  domain_warp noise warp_factor timestamp = Ok warped ->
  has_shape warped W H ∧ (0 < H)%nat ∧ (0 < W)%nat.
Proof.
  intros Hn Hw.
  destruct (decide (H = 0 ∨ W = 0)%nat) as [Hzero|Hpos].
  - by rewrite (domain_warp_empty noise H W) in Hw.
  - assert (0 < H)%nat as HH by lia. assert (0 < W)%nat as HW by lia.
    destruct (domain_warp_has_shape noise H W warp_factor timestamp Hn HH HW)
      as (warped' & Hw' & Hs).
    rewrite Hw in Hw'. injection Hw' as <-. done.
Qed.

(** ** Row-major indexing *)

Lemma flat_map_chunk {A B} (f : A -> list B) (c : nat) (l : list A) (i : nat) (x : A) :
  (forall y, In y l -> length (f y) = c) -> l !! i = Some x ->
  take c (drop (i * c) (flat_map f l)) = f x.
Proof.
  revert i. induction l as [|y l IH]; intros i Hc Hi; [done|].
  destruct i as [|i]; simpl in *.
  - injection Hi as ->.
    rewrite drop_0, take_app_length'; [done|]. symmetry. apply Hc. by left.
  - rewrite drop_app_add' by (symmetry; apply Hc; by left).
    apply IH; [|done]. intros z Hz. apply Hc. by right.
Qed.

Lemma map_chunks {A B C} (f : A -> list B) (F : list B -> C) (c : nat) (l : list A) :
  (forall y, length (f y) = c) ->
  map (fun i => F (take c (drop (i * c) (flat_map f l)))) (seq 0 (length l))
  = map (fun x => F (f x)) l.
Proof.
  intros Hc. apply list_eq. intros i.
  change (map ?g ?k) with (g <$> k). rewrite !list_lookup_fmap.
  destruct (l !! i) as [x|] eqn:Hi.
  - rewrite lookup_seq_lt by (by eapply lookup_lt_Some). simpl.
    by rewrite (flat_map_chunk f c l i x) by auto.
  - rewrite lookup_seq_ge by (by apply lookup_ge_None). done.
Qed.

Lemma tabulate2_lookup {A} (n m : nat) (f : nat -> nat -> A) (i j : nat) :
  (i < n)%nat -> (j < m)%nat ->
  data (tabulate2 n m f) !! (i * m + j)%nat = Some (f i j).
Proof.
  intros Hi Hj. cbn [tabulate2 data].
  assert (take m (drop (i * m) (flat_map (fun i => map (f i) (seq 0 m)) (seq 0 n)))
          = map (f i) (seq 0 m)) as Hc.
  { apply flat_map_chunk with (f := fun i => map (f i) (seq 0 m)).
    - intros y _. by rewrite length_map, length_seq.
    - by apply lookup_seq_lt. }
  rewrite <- (lookup_drop _ (i * m) j), <- (lookup_take_lt _ m j) by done.
  rewrite Hc. change (map (f i) (seq 0 m)) with (f i <$> seq 0 m).
  rewrite list_lookup_fmap, lookup_seq_lt by done. done.
Qed.

Lemma zip_with_map_same {A B C D} (f : B -> C -> D) (g : A -> B) (h : A -> C)
    (l : list A) :
  zip_with f (map g l) (map h l) = map (fun a => f (g a) (h a)) l.
Proof. induction l as [|a l IH]; simpl; [done|]. by rewrite IH. Qed.

(** ** The cellular generator *)

Lemma min_distance_is_min (pts : list (R * R)) (x y : R) :
  pts ≠ [] ->
  (∀ p, In p pts -> min_distance pts x y <= euclid x y p)
  ∧ ∃ p, In p pts ∧ min_distance pts x y = euclid x y p.
Proof.
  intros Hne. destruct pts as [|q pts]; [done|].
  unfold min_distance. cbn [map nth tail]. split.
  - intros p [->|Hin]; [apply list_min_le_init|].
    apply list_min_le. by apply in_map.
  - destruct (list_min_in (map (euclid x y) pts) (euclid x y q)) as [Heq|Hin].
    + exists q. split; [by left | done].
    + apply in_map_iff in Hin as (p & Hp & Hin).
      exists p. split; [by right | done].
Qed.

Lemma min_dim1_distance_matrix (x y : tensor R) (pts : list (R * R))
    (f0 f1 : R * R -> R) (H W : nat) :
  has_shape x H W -> has_shape y H W -> pts ≠ [] ->
  (m ← torch.min_dim1 (distance_matrix x y (map f0 pts) (map f1 pts));
   torch.reshape m [H; W])
  = Ok (Tensor [H; W]
          (map (fun cell =>
                  min_distance (map (fun p => (f0 p, f1 p)) pts) cell.1 cell.2)
               (zip (data x) (data y)))).
Proof.
  intros [_ Hx] [_ Hy] Hne.
  assert (length (zip (data x) (data y)) = (H * W)%nat) as Hzip
    by (rewrite length_zip; lia).
  unfold torch.min_dim1, distance_matrix. cbn [shape data].
  rewrite length_map.
  destruct (length pts) as [|c'] eqn:Hlen; [by destruct pts|].
  cbn [mbind result_bind]. unfold torch.reshape. cbn [data numel foldr].
  rewrite length_map, length_seq.
  destruct (decide _) as [_|Hn]; [|lia].
  f_equal. f_equal.
  assert (length (data x) = length (zip (data x) (data y))) as -> by lia.
  rewrite (map_chunks _ (fun row => list_min (nth 0 row 0) (tail row))).
  - apply map_ext. intros [xc yc]. unfold min_distance. cbn [fst snd].
    rewrite zip_with_map_same, map_map. done.
  - intros cell. rewrite zip_with_map_same, length_map. done.
Qed.

Lemma generate_cellular_cells (H W : nat) (numPoints : Z) (chaos_factor : R)
    (g : rng) :
  (1 <= numPoints)%Z ->
  let pts := seed_points (H, W) numPoints chaos_factor g in
  ∃ t, generate_cellular (H, W) numPoints chaos_factor g
       = Ok (t, fun i => g (2 * Z.to_nat numPoints + i)%nat)
     ∧ has_shape t H W
     ∧ ∀ i j, (i < H)%nat -> (j < W)%nat ->
         data t !! (i * W + j)%nat
         = Some (sin (min_distance pts (INR i) (INR j) * 0.2)
                 * cos (min_distance (map anisotropic pts) (INR i) (INR j) * 0.15)).
Proof.
  intros Hn pts.
  assert (pts ≠ []) as Hne.
  { subst pts. unfold seed_points.
    destruct (Z.to_nat numPoints) as [|k] eqn:Hk; [lia|]. done. }
  unfold generate_cellular. cbn [fst snd].
  unfold mbind at 1. unfold M_bind. unfold torch.rand2.
  destruct (decide (numPoints < 0)%Z) as [?|_]; [lia|].
  assert (map (fun p : R * R => (p.1 * INR H * chaos_factor, p.2 * INR W * chaos_factor))
            (map (fun i => (g (2 * i)%nat, g (2 * i + 1)%nat))
                 (seq 0 (Z.to_nat numPoints))) = pts) as ->
    by (subst pts; unfold seed_points; by rewrite map_map).
  set (x := tabulate2 H W (fun i _ => INR i)).
  set (y := tabulate2 H W (fun _ j => INR j)).
  assert (has_shape x H W) as Hx by apply tabulate2_has_shape.
  assert (has_shape y H W) as Hy by apply tabulate2_has_shape.
  unfold mbind at 1. unfold M_bind.
  rewrite (min_dim1_distance_matrix x y pts fst snd H W Hx Hy Hne).
  cbn [lift]. unfold mbind at 1. unfold M_bind.
  rewrite (min_dim1_distance_matrix x y pts (fun p => p.1 * 1.5)
             (fun p => p.2 * 0.8) H W Hx Hy Hne).
  cbn [lift mret M_ret].
  eexists. split; [reflexivity|].
  assert (length (zip (data x) (data y)) = (H * W)%nat) as Hzip.
  { destruct Hx as [_ Hx], Hy as [_ Hy]. rewrite length_zip. lia. }
  split.
  - split; [done|]. unfold tmul, tscale, tmap2, tmap. cbn [data shape].
    rewrite length_zip_with, !length_map. lia.
  - intros i j Hi Hj.
    unfold tmul, tscale, tmap2, tmap. cbn [data shape].
    rewrite !map_map, zip_with_map_same.
    change (map ?f ?k) with (f <$> k) at 1. rewrite list_lookup_fmap.
    assert (zip (data x) (data y) !! (i * W + j)%nat = Some (INR i, INR j)) as ->.
    { apply lookup_zip_Some. split; by apply tabulate2_lookup. }
    cbn [fmap option_fmap option_map fst snd].
    assert (map (fun p : R * R => (p.1, p.2)) pts = pts) as ->.
    { clear. induction pts as [|[a b] l IH]; simpl; [done|]. by rewrite IH. }
    done.
Qed.

(** ** Writing a slice into the batch *)

Lemma write_at_length {A} (off : nat) (v l : list A) :
  (off + length v <= length l)%nat -> length (write_at off v l) = length l.
Proof.
  intros Hle. unfold write_at.
  rewrite !length_app, length_take, length_drop. lia.
Qed.

Lemma write_at_app {A} (off : nat) (v1 v2 l : list A) :
  (off + length v1 + length v2 <= length l)%nat ->
  write_at (off + length v1) v2 (write_at off v1 l) = write_at off (v1 ++ v2) l.
Proof.
  intros Hle. unfold write_at.
  assert (length (take off l) = off) as Htake by (rewrite length_take; lia).
  rewrite (app_assoc (take off l) v1).
  rewrite take_app_length' by (rewrite length_app; lia).
  rewrite drop_app_ge by (rewrite length_app; lia).
  rewrite length_app, Htake, drop_drop, length_app.
  rewrite <- !app_assoc. do 4 f_equal. lia.
Qed.

Lemma write_at_nil {A} (off : nat) (l : list A) : write_at off [] l = l.
Proof.
  unfold write_at. simpl. rewrite Nat.add_0_r. apply take_drop.
Qed.

Lemma write_at_all {A} (v l : list A) :
  length v = length l -> write_at 0 v l = v.
Proof.
  intros Hlen. unfold write_at. simpl.
  rewrite drop_ge by lia. apply app_nil_r.
Qed.

Lemma broadcast_to_same (v : tensor fval) (H W : nat) :
  has_shape v H W -> broadcast_to v H W = Some (data v).
Proof.
  intros [Hs _]. unfold broadcast_to. rewrite Hs.
  destruct (decide _) as [_|Hn]; [done|]. by destruct Hn.
Qed.

(** A transposed value does not fit its slot. *)
Lemma broadcast_to_transposed (v : tensor fval) (H W : nat) :
  has_shape v W H -> H ≠ W -> broadcast_to v H W = None.
Proof.
  intros [Hs _] Hne. unfold broadcast_to. rewrite Hs.
  destruct (decide _) as [[? ?]|_]; [lia|].
  destruct (decide _) as [[[?|?] [?|?]]|_]; try lia; done.
Qed.

Lemma setitem_write (batch v : tensor fval) (B C H W i c : nat) :
  shape batch = [B; C; H; W] -> (i < B)%nat -> (c < C)%nat -> has_shape v H W ->
  setitem batch i c v
  = Ok (Tensor (shape batch) (write_at ((i * C + c) * (H * W)) (data v) (data batch))).
Proof.
  intros Hs Hi Hc Hv. unfold setitem. rewrite Hs.
  destruct (decide _) as [_|Hn]; [|lia].
  rewrite (broadcast_to_same v H W Hv).
  unfold write_at. destruct Hv as [_ ->]. done.
Qed.

Lemma M_bind_unfold {A B} (m : M A) (k : A -> M B) (g : rng) :
  (m ≫= k) g = match m g with Ok (a, g') => k a g' | Stop s => Stop s end.
Proof. reflexivity. Qed.

Lemma get_list_item (m : gmap string pyval) (key : string) (l : list R) :
  get_list m key = Ok l -> get_item m key = Ok (VList l).
Proof.
  unfold get_list. destruct (get_item m key) as [[l'|d]|e]; try done.
  cbn. by intros [= ->].
Qed.

(** The loop over the channels of frame [i] writes the channels one after
    the other. *)
Lemma channels_loop (vf : nat -> tensor fval) (B C H W i : nat) :
  (i < B)%nat -> (∀ c, has_shape (vf c) H W) ->
  ∀ (k c0 : nat) (batch : tensor fval) (g : rng),
    (c0 + k <= C)%nat ->
    shape batch = [B; C; H; W] ->
    length (data batch) = (B * C * (H * W))%nat ->
    for_in (seq c0 k) (fun batch c => lift (setitem batch i c (vf c))) batch g
    = Ok (Tensor (shape batch)
            (write_at ((i * C + c0) * (H * W))
               (flat_map (fun c => data (vf c)) (seq c0 k)) (data batch)), g).
Proof.
  intros Hi Hvf. induction k as [|k IH]; intros c0 batch g Hk Hs Hlen.
  - cbn [seq for_in flat_map mret M_ret]. rewrite write_at_nil.
    by destruct batch.
  - cbn [seq for_in flat_map]. rewrite M_bind_unfold.
    rewrite (setitem_write batch (vf c0) B C H W i c0) by (done || lia).
    cbn [lift].
    destruct (Hvf c0) as [_ Hv0].
    assert ((i * C + c0 + 1) * (H * W) <= B * C * (H * W))%nat as Hfit.
    { apply Nat.mul_le_mono_r. nia. }
    rewrite IH; cbn [shape data]; [|lia|done|].
    + do 3 f_equal.
      replace ((i * C + S c0) * (H * W))%nat
        with ((i * C + c0) * (H * W) + length (data (vf c0)))%nat by lia.
      apply write_at_app.
      assert (length (flat_map (fun c => data (vf c)) (seq (S c0) k))
              = (k * (H * W))%nat) as ->.
      { rewrite (flat_map_constant_length (c := (H * W)%nat)).
        - by rewrite length_seq.
        - intros c _. by destruct (Hvf c). }
      rewrite Hv0, Hlen.
      assert ((i * C + c0 + 1 + k) * (H * W) <= B * C * (H * W))%nat
        by (apply Nat.mul_le_mono_r; nia).
      lia.
    + rewrite write_at_length; [done|]. lia.
Qed.

Lemma generate_cellular_err (shp : nat * nat) (numPoints : Z) (chaos_factor : R)
    (g : rng) :
  (numPoints < 1)%Z -> ∃ e, generate_cellular shp numPoints chaos_factor g = Err e.
Proof.
  intros Hn. unfold generate_cellular. rewrite M_bind_unfold. unfold torch.rand2.
  destruct (decide (numPoints < 0)%Z) as [_|Hge]; [by eexists|].
  assert (numPoints = 0%Z) as -> by lia.
  cbn [Z.to_nat seq map]. rewrite M_bind_unfold.
  unfold torch.min_dim1, distance_matrix. cbn [shape length map].
  cbn [mbind result_bind lift]. by eexists.
Qed.

Lemma generate_cellular_has_shape (H W : nat) (numPoints : Z) (chaos_factor : R)
    (g g' : rng) (t : tensor R) :
  generate_cellular (H, W) numPoints chaos_factor g = Ok (t, g') ->
  has_shape t H W ∧ (1 <= numPoints)%Z.
Proof.
  intros Hok. destruct (decide (1 <= numPoints)%Z) as [Hn|Hn].
  - destruct (generate_cellular_cells H W numPoints chaos_factor g Hn)
      as (t' & Heq & Hsh & _).
    rewrite Heq in Hok. injection Hok as <- _. done.
  - destruct (generate_cellular_err (H, W) numPoints chaos_factor g) as [e He];
      [lia|]. congruence.
Qed.

(** ** The frames of a batch *)

Lemma dispatch_has_shape (noise_type : string) (H W : nat)
    (timestamp energy_factor chaos persistence : R) (g g' : rng)
    (base : tensor R) (persistence' : R) :
  H = W ∨ keeps_orientation noise_type ->
  dispatch noise_type H W timestamp energy_factor chaos persistence g
  = Ok ((base, persistence'), g') ->
  has_shape base H W.
Proof.
  intros Hfit. unfold dispatch.
  repeat case_decide; try subst noise_type.
  - intros [= <- _ _]. apply generate_simplex_has_shape.
  - rewrite M_bind_unfold.
    destruct (generate_cellular _ _ _ g) as [[t g1]|e] eqn:Hc; [|done].
    intros [= <- _ _]. by apply generate_cellular_has_shape in Hc as [? _].
  - intros [= <- _ _]. apply generate_fbm_has_shape.
  - intros [= <- _ _].
    destruct Hfit as [->|[? _]]; [|done]. apply generate_wave_has_shape.
  - rewrite M_bind_unfold.
    destruct (domain_warp _ _ _) as [warped|e] eqn:Hw; [|done].
    cbn [lift]. intros [= <- _ _].
    destruct (domain_warp_shape_of _ _ H W _ _
                (generate_simplex_has_shape H W (2 * chaos)) Hw) as [Hs _].
    destruct Hfit as [->|[_ ?]]; done.
  - done.
Qed.

Lemma normalize_has_shape (base : tensor R) (norm : tensor fval) (H W : nat) :
  normalize base = Ok norm -> has_shape base H W -> has_shape norm H W.
Proof.
  unfold normalize. intros Hn [Hs Hl].
  destruct (torch.min base) as [lo|]; [|done].
  destruct (torch.max base) as [hi|]; [|done].
  cbn [mbind result_bind mret result_ret] in Hn. injection Hn as <-.
  by apply tmap_has_shape.
Qed.

Lemma channel_has_shape (norm : tensor fval) (energy_factor chaos : R) (c H W : nat) :
  has_shape norm H W -> has_shape (channel norm energy_factor chaos c) H W.
Proof. intros Hn. unfold channel. by do 2 apply tmap_has_shape. Qed.

Lemma frame_pixels_length (fr : frame) (H W : nat) :
  has_shape (fr_norm fr) H W -> length (frame_pixels fr) = (4 * (H * W))%nat.
Proof.
  intros Hn. unfold frame_pixels.
  rewrite (flat_map_constant_length (c := (H * W)%nat)).
  - by rewrite length_seq.
  - intros c _. by destruct (channel_has_shape (fr_norm fr)
                               (f_energy (fr_field fr)) (f_chaos (fr_field fr)) c H W Hn).
Qed.

Lemma frames_pixels_length (frames : list frame) (H W : nat) :
  Forall (fun fr => has_shape (fr_norm fr) H W) frames ->
  length (flat_map frame_pixels frames) = (length frames * (4 * (H * W)))%nat.
Proof.
  intros Hall. apply flat_map_constant_length.
  intros fr Hin. apply frame_pixels_length.
  by apply (proj1 (List.Forall_forall _ _) Hall).
Qed.

Section Frames.

(** One call: its noise type, latent resolution, intensity and timestamps,
    for a family whose field fits the batch slot. *)
Context (noise_type : string) (H W : nat) (intensity : R) (timestamps : list R).
Hypothesis Hfit : H = W ∨ keeps_orientation noise_type.

Lemma prepare_has_shape (persistence timestamp : R) (g g' : rng)
    (f : field) (persistence' : R) :
  prepare noise_type H W intensity timestamps persistence timestamp g
  = Ok ((f, persistence'), g') ->
  has_shape (f_base f) H W.
Proof.
  unfold prepare. rewrite M_bind_unfold.
  destruct (time_scale_of timestamp timestamps) as [time_scale|]; [|done].
  cbn [lift]. rewrite M_bind_unfold.
  destruct (dispatch _ _ _ _ _ _ _ g) as [[[base p] g1]|] eqn:Hd; [|done].
  intros [= <- _ _]. cbn [f_base]. by eapply dispatch_has_shape.
Qed.

Lemma frames_of_shapes (ts : list R) :
  ∀ (persistence : R) (g : rng) frames persistence' g',
    frames_of noise_type H W intensity timestamps ts persistence g
    = Ok ((frames, persistence'), g') ->
    length frames = length ts
    ∧ Forall (fun fr => has_shape (f_base (fr_field fr)) H W
                        ∧ normalize (f_base (fr_field fr)) = Ok (fr_norm fr)
                        ∧ has_shape (fr_norm fr) H W) frames.
Proof.
  induction ts as [|t ts IH]; intros persistence g frames p' g'.
  - cbn. intros [= <- _ _]. split; [done | constructor].
  - cbn [frames_of]. rewrite M_bind_unfold.
    destruct (prepare _ _ _ _ _ _ _ g) as [[[f p1] g1]|e] eqn:Hprep; [|done].
    pose proof (prepare_has_shape _ _ _ _ _ _ Hprep) as Hbase.
    rewrite M_bind_unfold.
    destruct (normalize (f_base f)) as [norm|e] eqn:Hnorm; [|done].
    cbn [lift]. rewrite M_bind_unfold.
    destruct (frames_of _ _ _ _ _ ts p1 g1) as [[[frames1 p2] g2]|e] eqn:Hrest;
      [|done].
    intros [= <- _ _].
    destruct (IH _ _ _ _ _ Hrest) as [Hlen Hall].
    split; [cbn; by rewrite Hlen|].
    constructor; [|done]. cbn [fr_field fr_norm].
    eauto using normalize_has_shape.
Qed.

(** The loop writes the frames of its timestamps one after the other,
    starting at the slot of its first index. *)
Lemma frames_loop (B : nat) (ts : list R) :
  ∀ (i0 : nat) (batch : tensor fval) (persistence : R) (g : rng),
    (i0 + length ts <= B)%nat ->
    shape batch = [B; 4%nat; H; W] ->
    length (data batch) = (B * 4 * (H * W))%nat ->
    for_in (zip (seq i0 (length ts)) ts)
      (iteration noise_type H W intensity timestamps) (Locals batch persistence) g
    = match frames_of noise_type H W intensity timestamps ts persistence g with
      | Ok ((frames, persistence'), g') =>
          Ok (Locals
                (Tensor (shape batch)
                   (write_at (i0 * 4 * (H * W)) (flat_map frame_pixels frames)
                      (data batch)))
                persistence', g')
      | Stop s => Stop s
      end.
Proof.
  induction ts as [|t ts IH]; intros i0 batch persistence g Hi0 Hs Hlen.
  - cbn. rewrite write_at_nil. by destruct batch.
  - cbn [length seq zip zip_with for_in frames_of]. rewrite !M_bind_unfold.
    unfold iteration at 1. cbn [l_persistence l_noise_batch]. rewrite M_bind_unfold.
    destruct (prepare _ _ _ _ _ _ _ g) as [[[f p1] g1]|e] eqn:Hprep; [|done].
    pose proof (prepare_has_shape _ _ _ _ _ _ Hprep) as Hbase.
    rewrite !M_bind_unfold.
    destruct (normalize (f_base f)) as [norm|e] eqn:Hnorm; [|done].
    pose proof (normalize_has_shape _ _ _ _ Hnorm Hbase) as Hsh.
    cbn [lift]. rewrite M_bind_unfold.
    cbn [length] in Hi0.
    rewrite (channels_loop (fun c => channel norm (f_energy f) (f_chaos f) c)
               B 4 H W i0) by (done || lia || (intros c; by apply channel_has_shape)).
    cbn [mret M_ret].
    set (v := flat_map _ (seq 0 4)).
    assert (length v = (4 * (H * W))%nat) as Hv
      by (apply (frame_pixels_length (Frame f norm) H W Hsh)).
    assert ((i0 + 1 + length ts) * 4 * (H * W) <= B * 4 * (H * W))%nat as Hfits
      by (apply Nat.mul_le_mono_r; lia).
    rewrite IH; cbn [shape data]; [|lia|done|rewrite write_at_length; lia].
    rewrite M_bind_unfold.
    destruct (frames_of _ _ _ _ _ ts p1 g1) as [[[frames p2] g2]|e] eqn:Hrest;
      [|done].
    destruct (frames_of_shapes _ _ _ _ _ _ Hrest) as [Hlenf Hall].
    cbn [mret M_ret flat_map]. do 3 f_equal.
    change (frame_pixels (Frame f norm)) with v.
    replace (S i0 * 4 * (H * W))%nat with ((i0 * 4 + 0) * (H * W) + length v)%nat
      by lia.
    rewrite write_at_app.
    + by rewrite Nat.add_0_r.
    + rewrite (frames_pixels_length frames H W), Hlenf, Hv, Hlen.
      * lia.
      * eapply Forall_impl; [exact Hall|]. by intros fr (_ & _ & ?).
Qed.

End Frames.

(** ** Default merging *)

Lemma merge_defaults_union (noise_params : gmap string pyval) :
  merge_defaults noise_params = noise_params ∪ defaults_map.
Proof.
  unfold merge_defaults, defaults_map.
  generalize default_noise_params. intros l. revert noise_params.
  induction l as [|[k v] l IH]; intros m.
  - cbn. by rewrite (right_id_L ∅ (∪)).
  - cbn [foldl fst snd]. rewrite IH.
    change (list_to_map ((k, v) :: l)) with (<[k:=v]> (list_to_map l : gmap string pyval)).
    apply map_eq. intros j.
    destruct (m !! k) as [u|] eqn:Hk; rewrite !lookup_union.
    + destruct (decide (k = j)) as [<-|Hne].
      * rewrite Hk. by rewrite !union_Some_l.
      * by rewrite lookup_insert_ne.
    + destruct (decide (k = j)) as [<-|Hne].
      * rewrite !lookup_insert_eq, Hk. by rewrite union_Some_l.
      * by rewrite !lookup_insert_ne.
Qed.

Lemma returned_body (noise_params : gmap string pyval) (width height : nat)
    (noise_type analysis_type : string) (g : rng) :
  returned (generate_advanced_noise noise_params width height noise_type
              analysis_type g)
  = body (effective_params noise_params) width height noise_type g.
Proof.
  unfold generate_advanced_noise, effective_params.
  case_decide; cbn [returned]; [done|]. by rewrite merge_defaults_union.
Qed.

(** ** When the loop goes through *)

Lemma time_scale_of_ok (timestamp final : R) (timestamps : list R) :
  last timestamps = Some final -> final ≠ 0 -> 0 <= timestamp / final ->
  ∃ time_scale, time_scale_of timestamp timestamps = Ok time_scale
                ∧ time_scale_of timestamp timestamps = py_pow (timestamp / final) 0.3
                ∧ 0 <= time_scale.
Proof.
  intros Hlast Hne Hratio. unfold time_scale_of, py_last, py_div. rewrite Hlast.
  cbn [mbind result_bind]. destruct (Req_dec_T final 0) as [?|_]; [done|].
  cbn [mbind result_bind]. unfold py_pow.
  destruct (Rlt_dec 0 (timestamp / final)) as [Hpos|Hnpos].
  - eexists. split; [done|]. split; [done|]. left. apply exp_pos.
  - destruct (Req_dec_T (timestamp / final) 0) as [_|?]; [|lra].
    destruct (Rlt_dec 0 0.3) as [_|?]; [|lra].
    exists 0. split; [done|]. split; [done|]. lra.
Qed.

Lemma dispatch_ok (noise_type : string) (H W : nat)
    (timestamp energy_factor chaos persistence : R) (g : rng) :
  known_type noise_type -> 0 <= energy_factor ->
  (0 < H * W)%nat ∨ noise_type ≠ "domain_warp"%string ->
  ∃ base persistence' g',
    dispatch noise_type H W timestamp energy_factor chaos persistence g
    = Ok ((base, persistence'), g')
    ∧ length (data base) = (H * W)%nat.
Proof.
  intros Hknown He Hwarp. unfold dispatch.
  repeat case_decide; try subst noise_type.
  - do 3 eexists. split; [done|]. apply generate_simplex_has_shape.
  - rewrite M_bind_unfold.
    destruct (generate_cellular_cells H W (py_int (3 + energy_factor * 150)) chaos g)
      as (t & -> & [_ Hlen] & _).
    { assert (3 <= py_int (3 + energy_factor * 150))%Z; [|lia].
      apply py_int_ge; [lra | lia]. }
    do 3 eexists. split; [done|]. done.
  - do 3 eexists. split; [done|]. apply generate_fbm_has_shape.
  - do 3 eexists. split; [done|].
    destruct (generate_wave_has_shape H W (0.3 + energy_factor * 12)
                (timestamp * 8 * PI * chaos, timestamp * 6 * PI * (2 - chaos)))
      as [_ ->]. lia.
  - rewrite M_bind_unfold.
    destruct Hwarp as [Hpos|?]; [|done].
    destruct (domain_warp_has_shape
                (generate_simplex (H, W) (2 * chaos)) H W
                (0.1 + energy_factor * 1.2) timestamp) as (warped & -> & [_ Hw]);
      [apply generate_simplex_has_shape | nia | nia |].
    do 3 eexists. split; [done|]. cbn [fst data]. lia.
  - unfold known_type in Hknown.
    repeat (apply elem_of_cons in Hknown as [?|Hknown]; [done|]).
    by apply elem_of_nil in Hknown.
Qed.

Lemma normalize_ok (base : tensor R) :
  data base ≠ [] -> ∃ norm, normalize base = Ok norm.
Proof.
  intros Hne. unfold normalize, torch.min, torch.max.
  destruct (data base) as [|x l]; [done|]. by eexists.
Qed.

Lemma frames_of_ok (noise_type : string) (H W : nat) (intensity final : R)
    (timestamps : list R) :
  last timestamps = Some final -> final ≠ 0 -> 0 <= intensity ->
  known_type noise_type -> (0 < H * W)%nat ->
  ∀ (ts : list R) (persistence : R) (g : rng),
    Forall (fun t => 0 <= t / final) ts ->
    ∃ frames persistence' g',
      frames_of noise_type H W intensity timestamps ts persistence g
      = Ok ((frames, persistence'), g').
Proof.
  intros Hlast Hne Hi Hknown Hpos.
  induction ts as [|t ts IH]; intros persistence g Hall.
  - by do 3 eexists.
  - apply Forall_cons in Hall as [Ht Hall].
    cbn [frames_of]. rewrite M_bind_unfold. unfold prepare. rewrite M_bind_unfold.
    destruct (time_scale_of_ok t final timestamps Hlast Hne Ht)
      as (time_scale & -> & _ & _).
    cbn [lift]. rewrite M_bind_unfold.
    destruct (dispatch_ok noise_type H W t (energy_factor_of intensity time_scale)
                (chaos_of t) persistence g Hknown)
      as (base & p1 & g1 & -> & Hlen);
      [by apply energy_factor_of_nonneg | by left |].
    cbn [mret M_ret]. rewrite M_bind_unfold. cbn [f_base].
    destruct (normalize_ok base) as [norm ->].
    { intros Hnil. rewrite Hnil in Hlen. cbn in Hlen. lia. }
    cbn [lift]. rewrite M_bind_unfold.
    destruct (IH p1 g1 Hall) as (frames & p2 & g2 & ->).
    by do 3 eexists.
Qed.


(** The body of the function in terms of the frames of its timestamps. *)
Lemma body_frames (params : gmap string pyval) (width height : nat)
    (noise_type : string) (g : rng) (timestamps : list R) (d : gmap string R) :
  get_list params "timestamps" = Ok timestamps -> timestamps ≠ [] ->
  get_dict params noise_type = Ok d ->
  (height / 8 = width / 8)%nat ∨ keeps_orientation noise_type ->
  body params width height noise_type g
  = match frames_of noise_type (height / 8) (width / 8)
            (default 1 (d !! "intensity"%string)) timestamps timestamps
            (default 0.5 (d !! "persistence"%string)) g with
    | Ok ((frames, _), g') =>
        Ok ((Latent (Tensor [length timestamps; 4%nat; (height / 8)%nat;
                             (width / 8)%nat]
                       (flat_map frame_pixels frames)), timestamps), g')
    | Stop s => Stop s
    end.
Proof.
  intros Hts Hne Hd Hfit. unfold body. rewrite M_bind_unfold, (get_list_item _ _ _ Hts). cbn [lift py_len].
  destruct (decide (length timestamps = 0%nat)) as [Hz|_];
    [by destruct timestamps|].
  rewrite M_bind_unfold, Hd. cbn [lift]. rewrite M_bind_unfold.
  unfold enumerate.
  rewrite (frames_loop noise_type (height / 8) (width / 8) _ timestamps Hfit
             (length timestamps) timestamps 0);
    [|lia|done|cbn; rewrite length_replicate; lia].
  destruct (frames_of _ _ _ _ _ _ _ g) as [[[frames p'] g']|e] eqn:Hframes;
    [|done].
  unfold mret, M_ret. cbn [l_noise_batch torch.zeros shape data].
  change (0 * 4 * (height / 8 * (width / 8)))%nat with 0%nat.
  rewrite write_at_all; [done|].
  destruct (frames_of_shapes _ _ _ _ _ Hfit _ _ _ _ _ _ Hframes) as [Hlen Hall].
  rewrite (frames_pixels_length frames (height / 8) (width / 8)).
  - rewrite length_replicate, Hlen. cbn. lia.
  - eapply Forall_impl; [exact Hall|]. by intros fr (_ & _ & ?).
Qed.


(** A call on valid input returns the frames of its timestamps. *)
Lemma call_frames (noise_params : gmap string pyval) (width height : nat)
    (noise_type analysis_type : string) (g : rng) (timestamps : list R)
    (d : gmap string R) (final : R) :
  get_list (effective_params noise_params) "timestamps" = Ok timestamps ->
  get_dict (effective_params noise_params) noise_type = Ok d ->
  last timestamps = Some final -> final ≠ 0 ->
  Forall (fun t => 0 <= t / final) timestamps ->
  0 <= default 1 (d !! "intensity"%string) ->
  known_type noise_type ->
  (0 < height / 8 * (width / 8))%nat ->
  (height / 8 = width / 8)%nat ∨ keeps_orientation noise_type ->
  ∃ frames persistence' g',
    frames_of noise_type (height / 8) (width / 8)
      (default 1 (d !! "intensity"%string)) timestamps timestamps
      (default 0.5 (d !! "persistence"%string)) g
    = Ok ((frames, persistence'), g')
    ∧ returned (generate_advanced_noise noise_params width height noise_type
                  analysis_type g)
      = Ok ((Latent (Tensor [length timestamps; 4%nat; (height / 8)%nat;
                             (width / 8)%nat]
                       (flat_map frame_pixels frames)), timestamps), g').
Proof.
  intros Hts Hd Hlast Hne Hall Hi Hknown Hpos Hfit.
  assert (timestamps ≠ []) as Hnil by (intros ->; done).
  destruct (frames_of_ok noise_type (height / 8) (width / 8) _ final timestamps
              Hlast Hne Hi Hknown Hpos timestamps
              (default 0.5 (d !! "persistence"%string)) g Hall)
    as (frames & p' & g' & Hframes).
  exists frames, p', g'. split; [done|].
  rewrite returned_body.
  rewrite (body_frames _ _ _ _ _ timestamps d Hts Hnil Hd Hfit).
  by rewrite Hframes.
Qed.

(** ** Normalisation and channel expansion *)








Lemma Forall_flat_map {A B} (P : B -> Prop) (f : A -> list B) (l : list A) :
  (∀ x, In x l -> Forall P (f x)) -> Forall P (flat_map f l).
Proof.
  intros Hf. induction l as [|x l IH]; cbn; [constructor|].
  apply Forall_app. split; [apply Hf; by left|].
  apply IH. intros y Hy. apply Hf. by right.
Qed.

(** Constant fields do occur: fbm without octaves is [tanh 0] everywhere. *)
Lemma generate_fbm_no_octaves (shp : nat * nat) (octaves : Z)
    (persistence lacunarity chaos : R) :
  (octaves <= 0)%Z ->
  constant_field (generate_fbm shp octaves persistence lacunarity chaos).
Proof.
  intros Ho. unfold generate_fbm.
  replace (Z.to_nat octaves) with 0%nat by lia.
  cbn [Nat.iter nat_rect tmap data torch.zeros].
  intros x y Hx Hy.
  apply in_map_iff in Hx as (u & <- & Hu). apply in_map_iff in Hy as (v & <- & Hv).
  apply list_elem_of_In, elem_of_replicate in Hu as [-> _].
  apply list_elem_of_In, elem_of_replicate in Hv as [-> _]. done.
Qed.


(** ** Calls that raise *)

Lemma effective_params_empty : effective_params ∅ = defaults_map.
Proof. unfold effective_params. by case_decide. Qed.

Lemma effective_params_lookup (noise_params : gmap string pyval) (key : string) :
  effective_params noise_params !! key
  = match noise_params !! key with
    | Some v => Some v
    | None => defaults_map !! key
    end.
Proof.
  unfold effective_params. case_decide as He.
  - subst. by rewrite lookup_empty.
  - rewrite lookup_union. destruct (noise_params !! key) as [v|].
    + by rewrite union_Some_l.
    + by rewrite (left_id_L None (∪)).
Qed.

(** An exception of the first iteration, before the normalisation, is the
    exception of the call. *)
Lemma body_prepare_raises (params : gmap string pyval) (width height : nat)
    (noise_type : string) (g : rng) (t : R) (rest : list R) (d : gmap string R)
    (e : exn) :
  get_list params "timestamps" = Ok (t :: rest) ->
  get_dict params noise_type = Ok d ->
  prepare noise_type (height / 8) (width / 8)
    (default 1 (d !! "intensity"%string)) (t :: rest)
    (default 0.5 (d !! "persistence"%string)) t g = Err e ->
  body params width height noise_type g = Err e.
Proof.
  intros Hts Hd Hprep. unfold body. rewrite M_bind_unfold, (get_list_item _ _ _ Hts). cbn [lift py_len].
  destruct (decide _) as [?|_]; [done|].
  rewrite M_bind_unfold, Hd. cbn [lift]. rewrite M_bind_unfold.
  unfold enumerate. cbn [length seq zip zip_with for_in].
  rewrite M_bind_unfold. unfold iteration at 1. rewrite M_bind_unfold.
  cbn [l_persistence]. by rewrite Hprep.
Qed.

Lemma prepare_schedule_raises (noise_type : string) (H W : nat) (intensity : R)
    (timestamps : list R) (persistence timestamp : R) (g : rng) (e : exn) :
  time_scale_of timestamp timestamps = Err e ->
  prepare noise_type H W intensity timestamps persistence timestamp g = Err e.
Proof. intros Hs. unfold prepare. by rewrite M_bind_unfold, Hs. Qed.

(** A final timestamp of zero stops the schedule at the division. *)
Lemma time_scale_of_zero_last (timestamp : R) (timestamps : list R) :
  last timestamps = Some 0 ->
  time_scale_of timestamp timestamps = Err ZeroDivisionError.
Proof.
  intros Hlast. unfold time_scale_of, py_last. rewrite Hlast.
  cbn [mbind result_bind]. unfold py_div.
  by destruct (Req_dec_T 0 0) as [_|?].
Qed.

(** A timestamp of the sign opposite to the final one has no real
    [time_scale]: the embedding stops, the code goes on with a complex
    number. *)
Lemma time_scale_of_negative_ratio (timestamp final : R) (timestamps : list R) :
  last timestamps = Some final -> final ≠ 0 -> timestamp / final < 0 ->
  time_scale_of timestamp timestamps = Stop (Beyond ComplexValue).
Proof.
  intros Hlast Hne Hneg. unfold time_scale_of, py_last. rewrite Hlast.
  cbn [mbind result_bind]. unfold py_div.
  destruct (Req_dec_T final 0) as [?|_]; [done|].
  cbn [mbind result_bind]. unfold py_pow.
  destruct (Rlt_dec 0 (timestamp / final)) as [?|_]; [lra|].
  destruct (Req_dec_T (timestamp / final) 0) as [?|_]; [lra|]. done.
Qed.

Lemma py_int_nonpos (x : R) : x < 0 -> (py_int x <= 0)%Z.
Proof.
  intros Hx. unfold py_int. destruct (Rle_dec 0 x) as [?|_]; [lra|].
  destruct (base_Int_part (- x)) as [_ Hup].
  assert (-1 < Int_part (- x))%Z; [|lia].
  apply lt_IZR. lra.
Qed.

(** The cellular family asks [torch.rand] for a negative number of points
    when the intensity is negative enough. *)
Lemma prepare_cellular_negative_intensity (H W : nat) (timestamps : list R)
    (persistence timestamp : R) (g : rng) :
  time_scale_of timestamp timestamps = Ok 0 ->
  ∃ e, prepare "cellular" H W (-1) timestamps persistence timestamp g = Err e.
Proof.
  intros Hs. unfold prepare. rewrite M_bind_unfold, Hs. cbn [lift].
  rewrite M_bind_unfold. unfold dispatch.
  repeat case_decide; try done. rewrite M_bind_unfold.
  destruct (generate_cellular_err (H, W)
              (py_int (3 + energy_factor_of (-1) 0 * 150)) (chaos_of timestamp) g)
    as [e ->]; [|by exists e].
  assert (py_int (3 + energy_factor_of (-1) 0 * 150) <= 0)%Z; [|lia].
  apply py_int_nonpos. rewrite energy_factor_of_exp.
  replace (2 * 0) with 0 by lra. rewrite exp_0. lra.
Qed.

(** With a field that comes back transposed, the first channel assignment
    of the first iteration raises. *)
Lemma body_transposed_raises (params : gmap string pyval) (width height : nat)
    (noise_type : string) (g : rng) (t : R) (rest : list R) (d : gmap string R)
    (time_scale : R) :
  get_list params "timestamps" = Ok (t :: rest) ->
  get_dict params noise_type = Ok d ->
  time_scale_of t (t :: rest) = Ok time_scale ->
  noise_type = "wave"%string ∨ noise_type = "domain_warp"%string ->
  (height / 8 ≠ width / 8)%nat -> (0 < height / 8 * (width / 8))%nat ->
  body params width height noise_type g = Err RuntimeError.
Proof.
  intros Hts Hd Hscale Hty Hne Hpos. unfold body.
  rewrite M_bind_unfold, (get_list_item _ _ _ Hts). cbn [lift py_len].
  destruct (decide _) as [?|_]; [done|].
  rewrite M_bind_unfold, Hd. cbn [lift]. rewrite M_bind_unfold.
  unfold enumerate. cbn [length seq zip zip_with for_in].
  rewrite M_bind_unfold. unfold iteration at 1. rewrite M_bind_unfold.
  unfold prepare. rewrite M_bind_unfold, Hscale. cbn [lift].
  rewrite M_bind_unfold. cbn [l_persistence l_noise_batch].
  set (H := (height / 8)%nat) in *. set (W := (width / 8)%nat) in *.
  set (e := energy_factor_of _ time_scale).
  assert (∃ base p1,
            dispatch noise_type H W t e (chaos_of t)
              (default 0.5 (d !! "persistence"%string)) g = Ok ((base, p1), g)
            ∧ has_shape base W H) as (base & p1 & -> & Hbase).
  { unfold dispatch. destruct Hty as [-> | ->].
    - repeat case_decide; try done.
      do 2 eexists. split; [done|]. apply generate_wave_has_shape.
    - repeat case_decide; try done. rewrite M_bind_unfold.
      destruct (domain_warp_has_shape (generate_simplex (H, W) (2 * chaos_of t))
                  H W (0.1 + e * 1.2) t) as (warped & -> & Hw);
        [apply generate_simplex_has_shape | clearbody H W; nia
         | clearbody H W; nia |].
      by do 2 eexists. }
  cbn [mret M_ret]. rewrite M_bind_unfold. cbn [f_base f_energy f_chaos].
  destruct (normalize_ok base) as [norm Hnorm].
  { destruct Hbase as [_ Hl]. intros Hnil. rewrite Hnil in Hl.
    cbn [length] in Hl. clearbody H W. nia. }
  rewrite Hnorm. cbn [lift]. rewrite M_bind_unfold.
  cbn [seq for_in]. rewrite M_bind_unfold.
  unfold setitem at 1. cbn [torch.zeros shape].
  destruct (decide _) as [_|Hn]; [|cbn in Hn; lia].
  rewrite (broadcast_to_transposed _ H W); [done| |done].
  apply channel_has_shape. by eapply normalize_has_shape.
Qed.

(** ** The schedule of a timestamp with a non-negative ratio *)

Lemma time_scale_of_value (timestamps : list R) (t final : R) :
  last timestamps = Some final -> final ≠ 0 -> 0 <= t / final ->
  time_scale_of t timestamps = Ok (time_scale_value t final).
Proof.
  intros Hlast Hne Hratio. unfold time_scale_of, py_last, py_div. rewrite Hlast.
  cbn [mbind result_bind]. destruct (Req_dec_T final 0) as [?|_]; [done|].
  cbn [mbind result_bind]. unfold py_pow, time_scale_value.
  destruct (Rlt_dec 0 (t / final)) as [_|Hneg]; [done|].
  destruct (Req_dec_T (t / final) 0) as [_|Hnz]; [|exfalso; apply Hnz; lra].
  destruct (Rlt_dec 0 0.3) as [_|?]; [done | lra].
Qed.

Lemma ratio_le (t1 t2 final : R) : 0 < final -> t1 <= t2 -> t1 / final <= t2 / final.
Proof.
  intros Hf Ht. unfold Rdiv. apply Rmult_le_compat_r; [|done].
  left. by apply Rinv_0_lt_compat.
Qed.

Lemma ratio_nonneg (t final : R) : 0 < final -> 0 <= t -> 0 <= t / final.
Proof.
  intros Hf Ht. unfold Rdiv. apply Rmult_le_pos; [done|].
  left. by apply Rinv_0_lt_compat.
Qed.

Lemma time_scale_value_nonneg (t final : R) : 0 <= time_scale_value t final.
Proof.
  unfold time_scale_value. destruct (Rlt_dec 0 (t / final)); [|lra].
  left. apply exp_pos.
Qed.

Lemma time_scale_value_mono (t1 t2 final : R) :
  0 < final -> 0 <= t1 -> t1 <= t2 ->
  time_scale_value t1 final <= time_scale_value t2 final.
Proof.
  intros Hf H1 H12.
  pose proof (ratio_le t1 t2 final Hf H12) as Hr.
  unfold time_scale_value.
  destruct (Rlt_dec 0 (t1 / final)) as [Hp1|Hn1].
  - destruct (Rlt_dec 0 (t2 / final)) as [_|?]; [|lra].
    apply Rle_Rpower_l; lra.
  - destruct (Rlt_dec 0 (t2 / final)) as [_|_]; [|lra].
    left. apply exp_pos.
Qed.

Lemma time_scale_value_last (final : R) : 0 < final -> time_scale_value final final = 1.
Proof.
  intros Hf. unfold time_scale_value.
  replace (final / final) with 1 by (field; lra).
  destruct (Rlt_dec 0 1) as [_|?]; [|lra].
  unfold Rpower. rewrite ln_1, Rmult_0_r. apply exp_0.
Qed.

Lemma time_scale_value_first (final : R) : time_scale_value 0 final = 0.
Proof.
  unfold time_scale_value. replace (0 / final) with 0 by (unfold Rdiv; ring).
  destruct (Rlt_dec 0 0) as [?|_]; [lra | done].
Qed.

Lemma exp_le (x y : R) : x <= y -> exp x <= exp y.
Proof.
  intros [Hlt| ->]; [left; by apply exp_increasing | lra].
Qed.

Lemma energy_factor_of_mono (intensity s1 s2 : R) :
  0 <= intensity -> s1 <= s2 ->
  energy_factor_of intensity s1 <= energy_factor_of intensity s2.
Proof.
  intros Hi Hs. rewrite !energy_factor_of_exp.
  apply Rmult_le_compat_l; [done|]. apply exp_le. lra.
Qed.

Lemma exp_2_le_9 : exp 2 <= 9.
Proof.
  replace 2 with (1 + 1) by ring. rewrite exp_plus.
  pose proof exp_le_3. pose proof (exp_pos 1). nra.
Qed.

(** Timestamps between zero and the last one, with an intensity of at most
    1, keep the schedule within [schedule_bound]. *)
Lemma schedule_in_range_unit (intensity final t : R) :
  0 < final -> 0 <= t <= final -> 0 <= intensity <= 1 ->
  schedule_in_range intensity final t.
Proof.
  intros Hf [Ht0 Ht1] [Hi0 Hi1].
  assert (time_scale_value t final <= 1) as Hs.
  { rewrite <- (time_scale_value_last final Hf). by apply time_scale_value_mono. }
  assert (exp (2 * time_scale_value t final) <= 9) as He.
  { apply Rle_trans with (exp 2); [apply exp_le; lra | apply exp_2_le_9]. }
  pose proof (exp_pos (2 * time_scale_value t final)) as Hpos.
  unfold schedule_in_range, schedule_bound. split.
  - lra.
  - rewrite energy_factor_of_exp. nra.
Qed.

Lemma float32_range_small (x : R) : -1000 <= x <= 1000 -> float32_range x.
Proof.
  intros Hx. unfold float32_range, float32_bound.
  assert (1000 <= 10 ^ 30) as Hb.
  { replace 1000 with (10 ^ 3) by (simpl; ring). apply Rle_pow; [lra | lia]. }
  apply Rabs_le. lra.
Qed.

Lemma for_in_invariant {A S} (P : S -> Prop) (body : S -> A -> M S) :
  (∀ s x g s' g', P s -> body s x g = Ok (s', g') -> P s') ->
  ∀ xs s g s' g', P s -> for_in xs body s g = Ok (s', g') -> P s'.
Proof.
  intros Hbody. induction xs as [|x xs IH]; intros s g s' g' Hs.
  - cbn. by intros [= <- _].
  - cbn [for_in]. rewrite M_bind_unfold.
    destruct (body s x g) as [[s1 g1]|e] eqn:Hx; [|done].
    intros Hrest. eapply IH; [|exact Hrest]. by eapply Hbody.
Qed.

(** ** One frame of the batch *)





Lemma schedule_in_range_default (t : R) :
  0 <= t <= 1 -> schedule_in_range 1 1 t.
Proof.
  intros Ht. apply schedule_in_range_unit; lra.
Qed.

(** * The claims *)

(** ** C1: shape and order of the batch *)




(** The bound on the intensity from below is needed as well: a negative
    intensity makes the cellular family ask for a negative number of seed
    points. *)
Lemma negative_intensity_cellular_raises (g : rng) :
  ∃ e,
    returned (generate_advanced_noise
                {[ "cellular"%string := VDict {[ "intensity"%string := -1 ]} ]}
                64 64 "cellular" "" g)
    = Err e.
Proof.
  destruct (prepare_cellular_negative_intensity (64 / 8) (64 / 8) [0; 0.5; 1]
              (default 0.5 (({[ "intensity"%string := -1 ]} : gmap string R)
                              !! "persistence"%string)) 0 g)
    as [e He].
  { destruct (time_scale_of_ok 0 1 [0; 0.5; 1]) as (s & Hs & Hpow & _);
      [done | lra | lra |].
    rewrite Hpow. unfold py_pow.
    destruct (Rlt_dec 0 (0 / 1)) as [?|_]; [lra|].
    destruct (Req_dec_T (0 / 1) 0) as [_|?]; [|lra].
    destruct (Rlt_dec 0 0.3) as [_|?]; [done | lra]. }
  exists e. rewrite returned_body.
  apply (body_prepare_raises _ _ _ _ _ 0 [0.5; 1] {[ "intensity"%string := -1 ]}).
  - unfold get_list, get_item. rewrite effective_params_lookup.
    by rewrite lookup_singleton_ne.
  - unfold get_dict, get_item. rewrite effective_params_lookup.
    by rewrite lookup_singleton_eq.
  - rewrite lookup_singleton_eq. exact He.
Qed.

(** ** C3: the per-timestamp schedule *)




(** ** C5: orientation of the generated fields *)

(** C5 (code defect): on a latent resolution of 8 rows by 16 columns the
    wave generator and the domain warp return fields of shape [(16, 8)], and
    the call with width 128 and height 64 raises at the first channel
    assignment; simplex and fbm return [(8, 16)] fields. *)
Theorem wave_and_warp_are_transposed :
  (∀ frequency phases, shape (generate_wave (8, 16)%nat frequency phases)
                       = [16; 8]%nat)
  ∧ (∀ freq warp_factor timestamp,
       ∃ warped,
         domain_warp (generate_simplex (8, 16)%nat freq) warp_factor timestamp
         = Ok warped
         ∧ shape warped = [16; 8]%nat)
  ∧ (∀ freq, shape (generate_simplex (8, 16)%nat freq) = [8; 16]%nat)
  ∧ (∀ octaves persistence lacunarity chaos,
       shape (generate_fbm (8, 16)%nat octaves persistence lacunarity chaos)
       = [8; 16]%nat)
  ∧ (∀ g, returned (generate_advanced_noise ∅ 128 64 "wave" "" g)
          = Err RuntimeError)
  ∧ (∀ g, returned (generate_advanced_noise ∅ 128 64 "domain_warp" "" g)
          = Err RuntimeError).
Proof.
  assert (∀ noise_type d g,
            noise_type = "wave"%string ∨ noise_type = "domain_warp"%string ->
            get_dict defaults_map noise_type = Ok d ->
            returned (generate_advanced_noise ∅ 128 64 noise_type "" g)
            = Err RuntimeError) as Hraise.
  { intros noise_type d g Hty Hd.
    rewrite returned_body, effective_params_empty.
    destruct (time_scale_of_ok 0 1 [0; 0.5; 1]) as (s & Hs & _);
      [done | lra | lra |].
    apply (body_transposed_raises _ _ _ _ _ 0 [0.5; 1] d s); try done.
    change (0 < 8 * 16)%nat. lia. }
  split; [intros; apply generate_wave_has_shape|].
  split.
  { intros freq warp_factor timestamp.
    destruct (domain_warp_has_shape (generate_simplex (8, 16)%nat freq) 8 16
                warp_factor timestamp) as (warped & Hw & [Hs _]);
      [apply generate_simplex_has_shape | lia | lia |].
    by exists warped. }
  split; [intros; apply generate_simplex_has_shape|].
  split; [intros; apply generate_fbm_has_shape|].
  split; intros g.
  - apply (Hraise _ {[ "intensity"%string := 1 ]}); [by left | reflexivity].
  - apply (Hraise _ {[ "intensity"%string := 1 ]}); [by right | reflexivity].
Qed.

(** ** C8: the empty timestamp sequence *)

(** C8: when the timestamp sequence is empty the call returns, whatever the
    noise type, an all-zero batch of shape [(1, 4, height//8, width//8)]
    together with the timestamp list [[0.0]], and draws no random number. *)
Theorem empty_timestamps_zero_frame (noise_params : gmap string pyval)
    (width height : nat) (noise_type analysis_type : string) (g : rng) :
  noise_params !! "timestamps"%string = Some (VList []) ->
  ∃ batch,
    returned (generate_advanced_noise noise_params width height noise_type
                analysis_type g)
    = Ok ((Latent batch, [0]), g)
    ∧ shape batch = [1; 4; height / 8; width / 8]%nat
    ∧ length (data batch) = (1 * 4 * (height / 8) * (width / 8))%nat
    ∧ Forall (fun v => v = Fin 0) (data batch).
Proof.
  intros Hts. rewrite returned_body. unfold body. rewrite M_bind_unfold.
  unfold get_list, get_item. rewrite effective_params_lookup, Hts. cbn [lift].
  destruct (decide _) as [_|?]; [|done].
  eexists. split; [reflexivity|]. cbn [torch.zeros shape data].
  split; [done|]. split.
  - rewrite length_replicate. cbn. lia.
  - apply Forall_replicate. done.
Qed.

Lemma empty_timestamps_zero_frame_witness :
  ∃ batch,
    returned (generate_advanced_noise {[ "timestamps"%string := VList [] ]}
                512 512 "fbm" "" (fun _ => 0))
    = Ok ((Latent batch, [0]), fun _ => 0)
    ∧ shape batch = [1; 4; 64; 64]%nat.
Proof.
  destruct (empty_timestamps_zero_frame {[ "timestamps"%string := VList [] ]}
              512 512 "fbm" "" (fun _ => 0)) as (batch & Hret & Hshape & _).
  - apply lookup_singleton_eq.
  - exists batch. split; [exact Hret | exact Hshape].
Defined.

(** ** C10: the merge writes into the caller's mapping *)

(** C10: when the supplied mapping is non-empty, the mapping object of the
    caller holds after the call (whether the call returns or raises) every
    entry it held before, unchanged, and for every default key that was
    absent the default entry; no other key appears. *)
Theorem merge_mutates_caller (noise_params : gmap string pyval)
    (width height : nat) (noise_type analysis_type : string) (g : rng) :
  noise_params ≠ ∅ ->
  let after :=
    caller_params (generate_advanced_noise noise_params width height noise_type
                     analysis_type g) in
  (∀ key v, noise_params !! key = Some v -> after !! key = Some v)
  ∧ (∀ key v, (key, v) ∈ default_noise_params -> noise_params !! key = None ->
              after !! key = Some v)
  ∧ (∀ key, noise_params !! key = None ->
            key ∉ default_noise_params.*1 -> after !! key = None)
  ∧ after = noise_params ∪ defaults_map.
Proof.
  intros Hne after.
  assert (after = noise_params ∪ defaults_map) as Hafter.
  { subst after. unfold generate_advanced_noise.
    case_decide; [done|]. cbn [caller_params]. apply merge_defaults_union. }
  rewrite Hafter. split; [|split; [|split; [|done]]].
  - intros key v Hkey. by apply lookup_union_Some_l.
  - intros key v Hin Hkey. rewrite lookup_union_r by done.
    unfold defaults_map. apply elem_of_list_to_map_1; [|done].
    apply (bool_decide_unpack _). by vm_compute.
  - intros key Hkey Hnot. apply lookup_union_None. split; [done|].
    unfold defaults_map. by apply not_elem_of_list_to_map_1.
Qed.

Lemma merge_mutates_caller_witness :
  caller_params (generate_advanced_noise {[ "timestamps"%string := VList [1] ]}
                   64 64 "wave" "" (fun _ => 0))
  = {[ "timestamps"%string := VList [1] ]} ∪ defaults_map.
Proof.
  apply (merge_mutates_caller {[ "timestamps"%string := VList [1] ]}
           64 64 "wave" "" (fun _ => 0)).
  apply insert_non_empty.
Defined.

(** ** C6: normalisation, NaN frames and the rest of the batch *)



(** ** C4: the two distance fields of the cellular generator *)

(** One seed point on a one-cell field. *)
Lemma generate_cellular_unit (chaos_factor : R) (g : rng) :
  generate_cellular (1, 1)%nat 1 chaos_factor g
  = Ok (Tensor [1; 1]%nat
          [sin (euclid 0 0 (g 0%nat * 1 * chaos_factor, g 1%nat * 1 * chaos_factor)
                * 0.2)
           * cos (euclid 0 0 (g 0%nat * 1 * chaos_factor * 1.5,
                              g 1%nat * 1 * chaos_factor * 0.8) * 0.15)],
        fun i => g (2 + i)%nat).
Proof. reflexivity. Qed.

Lemma generate_cellular_independent_unit (chaos_factor : R) (g : rng) :
  generate_cellular_independent (1, 1)%nat 1 chaos_factor g
  = Ok (Tensor [1; 1]%nat
          [sin (euclid 0 0 (g 0%nat * 1 * chaos_factor, g 1%nat * 1 * chaos_factor)
                * 0.2)
           * cos (euclid 0 0 (g 2%nat * 1 * chaos_factor * 1.5,
                              g 3%nat * 1 * chaos_factor * 0.8) * 0.15)],
        fun i => g (2 + (2 + i))%nat).
Proof. reflexivity. Qed.

Lemma euclid_origin_axis (a : R) : 0 <= a -> euclid 0 0 (a, 0) = a.
Proof.
  intros Ha. unfold euclid. cbn [fst snd].
  replace ((0 - a) ^ 2 + (0 - 0) ^ 2) with (a²) by (unfold Rsqr; ring).
  by apply sqrt_Rsqr.
Qed.

Lemma sin_tenth_pos : 0 < sin (1 / 2 * 0.2).
Proof. pose proof PI2_1. apply sin_gt_0; lra. Qed.

Lemma cos_small_lt_1 (x : R) : 0 < x <= 1 -> cos x < 1.
Proof.
  intros Hx. pose proof PI2_1. rewrite <- cos_0.
  apply cos_decreasing_1; lra.
Qed.

Lemma cellular_half_then_zero :
  generate_cellular (1, 1)%nat 1 1 half_then_zero
  = Ok (Tensor [1; 1]%nat [sin (1 / 2 * 0.2) * cos (3 / 4 * 0.15)],
        fun i => half_then_zero (2 + i)%nat).
Proof.
  rewrite generate_cellular_unit. cbn [half_then_zero].
  replace (1 / 2 * 1 * 1) with (1 / 2) by lra.
  replace (0 * 1 * 1) with 0 by lra.
  replace (1 / 2 * 1.5) with (3 / 4) by lra.
  replace (0 * 0.8) with 0 by lra.
  rewrite !euclid_origin_axis by lra. done.
Qed.

(** C4, as stated, fails: with one seed point on a one-cell field the
    generator differs from a generator that measures the second distance
    field on an independently drawn seed set. *)
Lemma cellular_seed_sets_not_independent :
  generate_cellular (1, 1)%nat 1 1 half_then_zero
  ≠ generate_cellular_independent (1, 1)%nat 1 1 half_then_zero.
Proof.
  rewrite cellular_half_then_zero, generate_cellular_independent_unit.
  cbn [half_then_zero].
  replace (1 / 2 * 1 * 1) with (1 / 2) by lra.
  replace (0 * 1 * 1) with 0 by lra.
  replace (0 * 1.5) with 0 by lra. replace (0 * 0.8) with 0 by lra.
  rewrite !euclid_origin_axis by lra.
  intros [= Heq].
  replace (0 * 0.15) with 0 in Heq by lra. rewrite cos_0 in Heq.
  pose proof sin_tenth_pos as Hs.
  pose proof (cos_small_lt_1 (3 / 4 * 0.15)) as Hc.
  assert (cos (3 / 4 * 0.15) < 1) as Hlt by (apply Hc; lra).
  nra.
Qed.

(** C4 (amended): for every shape, every [numPoints ≥ 1] and every
    [chaos_factor], the generator draws one set of [numPoints] seed points;
    [d1] is the per-cell minimum Euclidean distance to these points and [d2]
    the per-cell minimum Euclidean distance to the same points with their
    coordinates scaled by [(1.5, 0.8)]; the output at every cell equals
    [sin(d1*0.2) * cos(d2*0.15)]. *)
Theorem cellular_distance_fields (H W : nat) (numPoints : Z) (chaos_factor : R)
    (g : rng) :
  (1 <= numPoints)%Z ->
  let pts := seed_points (H, W) numPoints chaos_factor g in
  ∃ t, generate_cellular (H, W) numPoints chaos_factor g
       = Ok (t, fun i => g (2 * Z.to_nat numPoints + i)%nat)
     ∧ has_shape t H W
     ∧ length pts = Z.to_nat numPoints
     ∧ ∀ i j, (i < H)%nat -> (j < W)%nat ->
         let d1 := min_distance pts (INR i) (INR j) in
         let d2 := min_distance (map anisotropic pts) (INR i) (INR j) in
         data t !! (i * W + j)%nat = Some (sin (d1 * 0.2) * cos (d2 * 0.15))
         ∧ (∀ p, In p pts -> d1 <= euclid (INR i) (INR j) p)
         ∧ (∃ p, In p pts ∧ d1 = euclid (INR i) (INR j) p)
         ∧ (∀ p, In p pts -> d2 <= euclid (INR i) (INR j) (anisotropic p))
         ∧ (∃ p, In p pts ∧ d2 = euclid (INR i) (INR j) (anisotropic p)).
Proof.
  intros Hn pts.
  destruct (generate_cellular_cells H W numPoints chaos_factor g Hn)
    as (t & Hrun & Hshape & Hcells).
  assert (length pts = Z.to_nat numPoints) as Hlen
    by (subst pts; unfold seed_points; by rewrite length_map, length_seq).
  assert (pts ≠ []) as Hne by (intros Hnil; rewrite Hnil in Hlen; cbn in Hlen; lia).
  exists t. split; [done|]. split; [done|]. split; [done|].
  intros i j Hi Hj d1 d2.
  destruct (min_distance_is_min pts (INR i) (INR j) Hne) as [Hle1 Hat1].
  destruct (min_distance_is_min (map anisotropic pts) (INR i) (INR j))
    as [Hle2 (q & Hq & Hat2)]; [by destruct pts|].
  split; [by apply Hcells|]. split; [done|]. split; [done|]. split.
  - intros p Hp. apply Hle2. by apply in_map.
  - apply in_map_iff in Hq as (p & <- & Hp). by exists p.
Qed.

Lemma cellular_distance_fields_witness :
  ∃ t, generate_cellular (2, 3)%nat 3 1 (fun _ => 0)
       = Ok (t, fun i => 0)
     ∧ has_shape t 2 3.
Proof.
  destruct (cellular_distance_fields 2 3 3 1 (fun _ => 0))
    as (t & Hrun & Hshape & _).
  - lia.
  - exists t. split; [exact Hrun | exact Hshape].
Defined.

(** ** C7: determinism of the generators *)

Lemma rand2_agree (n : Z) (g1 g2 : rng) :
  (∀ k, (k < 2 * Z.to_nat n)%nat -> g1 k = g2 k) ->
  call (torch.rand2 n) g1 = call (torch.rand2 n) g2.
Proof.
  intros Hagree. unfold call, torch.rand2.
  destruct (decide (n < 0)%Z) as [_|_]; [done|]. f_equal.
  apply map_ext_in. intros i Hi. apply in_seq in Hi.
  rewrite !Hagree by lia. done.
Qed.

Lemma generate_cellular_agree (shp : nat * nat) (numPoints : Z) (chaos_factor : R)
    (g1 g2 : rng) :
  (∀ k, (k < 2 * Z.to_nat numPoints)%nat -> g1 k = g2 k) ->
  call (generate_cellular shp numPoints chaos_factor) g1
  = call (generate_cellular shp numPoints chaos_factor) g2.
Proof.
  intros Hagree. pose proof (rand2_agree numPoints g1 g2 Hagree) as Hu.
  unfold call in *. unfold generate_cellular. rewrite !M_bind_unfold.
  destruct (torch.rand2 numPoints g1) as [[u1 g1']|e1];
    destruct (torch.rand2 numPoints g2) as [[u2 g2']|e2]; try done.
  - injection Hu as ->. rewrite !M_bind_unfold.
    destruct (_ ≫= _) as [distances1|e]; cbn [lift]; [|done].
    rewrite !M_bind_unfold.
    destruct (_ ≫= _) as [distances2|e]; cbn [lift]; done.
  - by injection Hu as ->.
Qed.

(** C7: a call of the simplex, fbm, wave or domain-warp family returns a
    value that does not depend on the state of the random generator, and
    leaves that state as it was; two calls of the cellular generator with
    equal arguments can return different fields, and return the same field
    when the generator delivers the same [2 * numPoints] samples. *)
Theorem generators_determinism :
  (∀ noise_type H W timestamp energy_factor chaos persistence g1 g2,
     noise_type ∈ ["simplex"; "fbm"; "wave"; "domain_warp"]%string ->
     call (dispatch noise_type H W timestamp energy_factor chaos persistence) g1
     = call (dispatch noise_type H W timestamp energy_factor chaos persistence) g2
     ∧ ∀ r g', dispatch noise_type H W timestamp energy_factor chaos
                 persistence g1 = Ok (r, g') -> g' = g1)
  ∧ (∃ g1 g2,
       call (generate_cellular (1, 1)%nat 1 1) g1
       ≠ call (generate_cellular (1, 1)%nat 1 1) g2)
  ∧ (∀ shp numPoints chaos_factor g1 g2,
       (∀ k, (k < 2 * Z.to_nat numPoints)%nat -> g1 k = g2 k) ->
       call (generate_cellular shp numPoints chaos_factor) g1
       = call (generate_cellular shp numPoints chaos_factor) g2).
Proof.
  split; [|split].
  - intros noise_type H W timestamp energy_factor chaos persistence g1 g2 Hty.
    unfold call, dispatch.
    repeat (apply elem_of_cons in Hty as [->|Hty]);
      [| | | |by apply elem_of_nil in Hty];
      repeat case_decide; try done.
    + split; [done|]. by intros r g' [= _ <-].
    + split; [done|]. by intros r g' [= _ <-].
    + split; [done|]. by intros r g' [= _ <-].
    + rewrite !M_bind_unfold.
      destruct (domain_warp _ _ _) as [warped|e]; cbn [lift]; [|done].
      split; [done|]. by intros r g' [= _ <-].
  - exists half_then_zero, (fun _ => 0). unfold call.
    rewrite cellular_half_then_zero, generate_cellular_unit.
    replace (0 * 1 * 1) with 0 by lra.
    replace (0 * 1.5) with 0 by lra. replace (0 * 0.8) with 0 by lra.
    rewrite !euclid_origin_axis by lra.
    intros [= Heq]. replace (0 * 0.2) with 0 in Heq by lra.
    rewrite sin_0 in Heq.
    pose proof sin_tenth_pos as Hs. pose proof PI2_1.
    assert (0 < cos (3 / 4 * 0.15)) by (apply cos_gt_0; lra).
    nra.
  - exact generate_cellular_agree.
Qed.

Lemma generators_determinism_witness :
  call (dispatch "wave" 8 8 0.5 1 1 0.5) (fun _ => 0)
  = call (dispatch "wave" 8 8 0.5 1 1 0.5) half_then_zero
  ∧ call (generate_cellular (8, 8)%nat 3 1) (fun _ => 0)
    = call (generate_cellular (8, 8)%nat 3 1)
        (fun k => if decide (k < 6)%nat then 0 else 1 / 2).
Proof.
  destruct generators_determinism as (Hpure & _ & Hseeded).
  split.
  - apply (Hpure "wave"%string 8%nat 8%nat 0.5 1 1 0.5).
    do 2 apply list_elem_of_further. constructor.
  - apply Hseeded. intros k Hk. change (Z.to_nat 3) with 3%nat in Hk.
    destruct (decide (k < 6)%nat) as [_|Hn]; [reflexivity | lia].
Defined.

(** ** C9: the supplied persistence is never read *)

Lemma dispatch_persistence (noise_type : string) (H W : nat)
    (timestamp energy_factor chaos p1 p2 : R) (g : rng) :
  forget_persistence (dispatch noise_type H W timestamp energy_factor chaos p1 g)
  = forget_persistence (dispatch noise_type H W timestamp energy_factor chaos p2 g).
Proof.
  unfold dispatch. repeat case_decide; try done; rewrite !M_bind_unfold.
  all: first [ by destruct (generate_cellular _ _ _ g) as [[t g1]|e]
             | by destruct (domain_warp _ _ _) as [warped|e] ].
Qed.

Lemma prepare_persistence (noise_type : string) (H W : nat) (intensity : R)
    (timestamps : list R) (p1 p2 timestamp : R) (g : rng) :
  forget_persistence (prepare noise_type H W intensity timestamps p1 timestamp g)
  = forget_persistence (prepare noise_type H W intensity timestamps p2 timestamp g).
Proof.
  unfold prepare. rewrite !M_bind_unfold.
  destruct (time_scale_of timestamp timestamps) as [time_scale|e]; [|done].
  cbn [lift]. rewrite !M_bind_unfold.
  pose proof (dispatch_persistence noise_type H W timestamp
                (energy_factor_of intensity time_scale) (chaos_of timestamp)
                p1 p2 g) as Hd.
  destruct (dispatch _ _ _ _ _ _ p1 g) as [[[b1 q1] g1]|e1];
    destruct (dispatch _ _ _ _ _ _ p2 g) as [[[b2 q2] g2]|e2];
    cbn in Hd; try done.
  - by injection Hd as -> ->.
  - by injection Hd as ->.
Qed.

Lemma iteration_persistence (noise_type : string) (H W : nat) (intensity : R)
    (timestamps : list R) (batch : tensor fval) (p1 p2 : R) (it : nat * R)
    (g : rng) :
  batch_of (iteration noise_type H W intensity timestamps (Locals batch p1) it g)
  = batch_of (iteration noise_type H W intensity timestamps (Locals batch p2) it g).
Proof.
  unfold iteration. destruct it as [i t]. rewrite !M_bind_unfold.
  cbn [l_persistence l_noise_batch].
  pose proof (prepare_persistence noise_type H W intensity timestamps p1 p2 t g)
    as Hp.
  destruct (prepare _ _ _ _ _ p1 t g) as [[[f1 q1] g1]|e1];
    destruct (prepare _ _ _ _ _ p2 t g) as [[[f2 q2] g2]|e2];
    cbn in Hp; try done.
  - injection Hp as -> ->. rewrite !M_bind_unfold.
    destruct (normalize (f_base f2)) as [norm|e]; [|done].
    cbn [lift]. rewrite !M_bind_unfold.
    by destruct (for_in (seq 0 4) _ batch g2) as [[b g3]|e].
  - by injection Hp as ->.
Qed.

Lemma loop_persistence (noise_type : string) (H W : nat) (intensity : R)
    (timestamps : list R) (xs : list (nat * R)) :
  ∀ (batch : tensor fval) (p1 p2 : R) (g : rng),
    batch_of (for_in xs (iteration noise_type H W intensity timestamps)
                (Locals batch p1) g)
    = batch_of (for_in xs (iteration noise_type H W intensity timestamps)
                  (Locals batch p2) g).
Proof.
  induction xs as [|x xs IH]; intros batch p1 p2 g; [done|].
  cbn [for_in]. rewrite !M_bind_unfold.
  pose proof (iteration_persistence noise_type H W intensity timestamps batch
                p1 p2 x g) as Hit.
  destruct (iteration _ _ _ _ _ (Locals batch p1) x g) as [[[b1 q1] g1]|e1];
    destruct (iteration _ _ _ _ _ (Locals batch p2) x g) as [[[b2 q2] g2]|e2];
    cbn in Hit; try done.
  injection Hit as -> ->. apply IH.
Qed.

Lemma body_persistence (params1 params2 : gmap string pyval) (width height : nat)
    (noise_type : string) (g : rng) :
  get_item params1 "timestamps" = get_item params2 "timestamps" ->
  (get_dict params1 noise_type = get_dict params2 noise_type
   ∨ ∃ d1 d2, get_dict params1 noise_type = Ok d1
              ∧ get_dict params2 noise_type = Ok d2
              ∧ d1 !! "intensity"%string = d2 !! "intensity"%string) ->
  body params1 width height noise_type g = body params2 width height noise_type g.
Proof.
  intros Hts Hd. unfold body. rewrite !M_bind_unfold, Hts.
  destruct (get_item params2 "timestamps") as [v|e]; [|done].
  cbn [lift]. destruct (decide _) as [_|_]; [done|].
  rewrite !M_bind_unfold.
  destruct Hd as [-> | (d1 & d2 & -> & -> & Hi)]; [done|].
  cbn [lift]. destruct v as [timestamps|keys]; [|done].
  rewrite !M_bind_unfold, Hi.
  pose proof (loop_persistence noise_type (height / 8) (width / 8)
                (default 1 (d2 !! "intensity"%string)) timestamps
                (enumerate timestamps)
                (torch.zeros (Fin 0)
                   [length timestamps; 4%nat; (height / 8)%nat; (width / 8)%nat])
                (default 0.5 (d1 !! "persistence"%string))
                (default 0.5 (d2 !! "persistence"%string)) g) as Hloop.
  destruct (for_in _ _ (Locals _ (default 0.5 (d1 !! _))) g) as [[st1 g1]|e1];
    destruct (for_in _ _ (Locals _ (default 0.5 (d2 !! _))) g) as [[st2 g2]|e2];
    cbn in Hloop; try done.
  - injection Hloop as -> ->. done.
  - by injection Hloop as ->.
Qed.

(** C9: two mappings that differ only in the [persistence] entry of their
    fbm sub-mapping give the same returned value (batch, timestamps and
    generator state, or the same exception), for every noise type: the
    value read from the parameters is replaced by [0.2 + energy_factor*0.8]
    in the fbm branch before its use, and no other branch reads it. *)
Theorem persistence_is_ignored (params1 params2 : gmap string pyval)
    (d1 d2 : gmap string R) (width height : nat)
    (noise_type analysis_type : string) (g : rng) :
  params1 !! "fbm"%string = Some (VDict d1) ->
  params2 !! "fbm"%string = Some (VDict d2) ->
  (∀ key, key ≠ "fbm"%string -> params1 !! key = params2 !! key) ->
  (∀ key, key ≠ "persistence"%string -> d1 !! key = d2 !! key) ->
  returned (generate_advanced_noise params1 width height noise_type
              analysis_type g)
  = returned (generate_advanced_noise params2 width height noise_type
                analysis_type g).
Proof.
  intros H1 H2 Hother Hd. rewrite !returned_body.
  apply body_persistence.
  - unfold get_list, get_item. rewrite !effective_params_lookup.
    by rewrite (Hother "timestamps"%string).
  - unfold get_dict, get_item. rewrite !effective_params_lookup.
    destruct (decide (noise_type = "fbm"%string)) as [->|Hne].
    + right. exists d1, d2. rewrite H1, H2. split; [done|]. split; [done|].
      by apply Hd.
    + left. by rewrite (Hother noise_type Hne).
Qed.

Lemma persistence_is_ignored_witness :
  returned (generate_advanced_noise
              {[ "fbm"%string := VDict {[ "persistence"%string := 0.1 ]} ]}
              64 64 "fbm" "" (fun _ => 0))
  = returned (generate_advanced_noise
                {[ "fbm"%string := VDict {[ "persistence"%string := 0.9 ]} ]}
                64 64 "fbm" "" (fun _ => 0)).
Proof.
  apply (persistence_is_ignored _ _ {[ "persistence"%string := 0.1 ]}
           {[ "persistence"%string := 0.9 ]}).
  - apply lookup_singleton_eq.
  - apply lookup_singleton_eq.
  - intros key Hkey. by rewrite !lookup_singleton_ne.
  - intros key Hkey. by rewrite !lookup_singleton_ne.
Defined.

(** * Further properties of the code *)

(** ** Element-wise operations, cell by cell *)

Lemma lookup_tmap {A B} (f : A -> B) (t : tensor A) (k : nat) (a : A) :
  data t !! k = Some a -> data (tmap f t) !! k = Some (f a).
Proof.
  intros Hk. cbn [tmap data]. change (map f (data t)) with (f <$> data t).
  by rewrite list_lookup_fmap, Hk.
Qed.

Lemma lookup_tmap2 {A B C} (f : A -> B -> C) (a : tensor A) (b : tensor B)
    (k : nat) (x : A) (y : B) :
  data a !! k = Some x -> data b !! k = Some y ->
  data (tmap2 f a b) !! k = Some (f x y).
Proof.
  intros Ha Hb. cbn [tmap2 data]. apply lookup_zip_with_Some. by exists x, y.
Qed.

Lemma linspace_nth (start stop : R) (steps i : nat) :
  (i < steps)%nat ->
  nth i (data (torch.linspace start stop steps)) 0
  = linspace_point start stop steps i.
Proof.
  intros Hi. cbn [torch.linspace data].
  rewrite (nth_indep _ 0 ((fun i => linspace_point start stop steps i) 0%nat))
    by (by rewrite length_map, length_seq).
  rewrite (map_nth (fun i => linspace_point start stop steps i)).
  by rewrite seq_nth.
Qed.

Lemma meshgrid_lookup (a b : tensor R) (i j : nat) :
  (i < length (data a))%nat -> (j < length (data b))%nat ->
  data (torch.meshgrid a b).1 !! (i * length (data b) + j)%nat
  = Some (nth i (data a) 0)
  ∧ data (torch.meshgrid a b).2 !! (i * length (data b) + j)%nat
    = Some (nth j (data b) 0).
Proof.
  intros Hi Hj. unfold torch.meshgrid. cbn [fst snd]. split.
  - by apply (tabulate2_lookup _ _ (fun i _ => nth i (data a) 0)).
  - by apply (tabulate2_lookup _ _ (fun _ j => nth j (data b) 0)).
Qed.

Lemma Forall_zip_with_intro {A B C} (P : A -> Prop) (Q : B -> Prop)
    (S : C -> Prop) (f : A -> B -> C) (l : list A) (k : list B) :
  (∀ x y, P x -> Q y -> S (f x y)) ->
  Forall P l -> Forall Q k -> Forall S (zip_with f l k).
Proof.
  intros Hf Hl. revert k. induction Hl as [|x l Hx Hl IH]; intros k Hk; [constructor|].
  destruct Hk as [|y k Hy Hk]; cbn; [constructor|].
  constructor; [by apply Hf | by apply IH].
Qed.

Lemma Forall_map_intro {A B} (P : B -> Prop) (f : A -> B) (l : list A) :
  (∀ x, P (f x)) -> Forall P (map f l).
Proof.
  intros Hf. apply List.Forall_forall. intros y Hy.
  apply in_map_iff in Hy as (x & <- & _). apply Hf.
Qed.

Lemma sigmoid_bounds (x : R) : 0 < sigmoid x < 1.
Proof.
  unfold sigmoid. pose proof (exp_pos (- x)) as He. split.
  - apply Rdiv_lt_0_compat; lra.
  - apply Rmult_lt_reg_r with (1 + exp (- x)); [lra|].
    unfold Rdiv. rewrite Rmult_assoc, Rinv_l by lra. lra.
Qed.

Lemma product_in_unit (a b : R) : -1 <= a <= 1 -> -1 <= b <= 1 -> -1 <= a * b <= 1.
Proof. intros Ha Hb. nra. Qed.

Ltac cell_lookup :=
  unfold tscale, tshift, tadd, tsub, tmul;
  repeat match goal with
    | |- _ => eassumption
    | |- data (tmap2 ?f _ _) !! _ = Some _ => eapply (lookup_tmap2 f)
    | |- data (tmap ?f _) !! _ = Some _ => eapply (lookup_tmap f)
    end.

(** ** The simplex and wave fields in closed form *)

(** X1: Cell [(i, j)] of the simplex field is the source formula at the [i]-th
    point of the height grid and the [j]-th point of the width grid. *)
Theorem generate_simplex_cell (H W : nat) (freq : R) (i j : nat) :
  (i < H)%nat -> (j < W)%nat ->
  let x := linspace_point (- PI) PI H i in
  let y := linspace_point (- PI) PI W j in
  data (generate_simplex (H, W) freq) !! (i * W + j)%nat
  = Some (tanh (sin (x * freq) * cos (y * freq * 1.5))
          * sigmoid (cos (x * freq * 0.7) * sin (y * freq * 2))).
Proof.
  intros Hi Hj x y. unfold generate_simplex. cbn [fst snd].
  destruct (meshgrid_lookup (torch.linspace (- PI) PI H)
              (torch.linspace (- PI) PI W) i j) as [H0 H1];
    [by rewrite linspace_length | by rewrite linspace_length |].
  rewrite linspace_length in H0, H1.
  rewrite linspace_nth in H0, H1 by done.
  fold x in H0. fold y in H1.
  destruct (torch.meshgrid _ _) as [c0 c1]. cbn [fst snd] in *.
  cell_lookup.
Qed.

Lemma generate_simplex_cell_witness :
  data (generate_simplex (8, 8)%nat 31) !! (3 * 8 + 5)%nat
  = Some (tanh (sin (linspace_point (- PI) PI 8 3 * 31)
                * cos (linspace_point (- PI) PI 8 5 * 31 * 1.5))
          * sigmoid (cos (linspace_point (- PI) PI 8 3 * 31 * 0.7)
                     * sin (linspace_point (- PI) PI 8 5 * 31 * 2))).
Proof. apply (generate_simplex_cell 8 8 31 3 5); lia. Defined.

(** X2: The wave field is indexed by the width grid first: for [i < W] and
    [j < H], cell [(i, j)] of the [(W, H)] field is the mean of the three
    interference terms at [x] = point [i] of the width grid and [y] = point
    [j] of the height grid. *)
Theorem generate_wave_cell (H W : nat) (frequency : R) (phases : R * R)
    (i j : nat) :
  (i < W)%nat -> (j < H)%nat ->
  let x := linspace_point (- PI) PI W i in
  let y := linspace_point (- PI) PI H j in
  data (generate_wave (H, W) frequency phases) !! (i * H + j)%nat
  = Some ((sin (x * frequency + phases.1) * cos (y * frequency * 1.3 + phases.2)
           + cos (x * frequency * 0.7 + phases.2)
             * sin (y * frequency * 1.7 + phases.1)
           + sin ((x + y) * frequency * 0.5) * cos ((x - y) * frequency * 0.8))
          / 3).
Proof.
  intros Hi Hj x y. unfold generate_wave. cbn [fst snd].
  destruct (meshgrid_lookup (torch.linspace (- PI) PI W)
              (torch.linspace (- PI) PI H) i j) as [H0 H1];
    [by rewrite linspace_length | by rewrite linspace_length |].
  rewrite linspace_length in H0, H1.
  rewrite linspace_nth in H0, H1 by done.
  fold x in H0. fold y in H1.
  destruct (torch.meshgrid _ _) as [xx yy]. cbn [fst snd] in *.
  cbv zeta.
  cell_lookup.
Qed.

Lemma generate_wave_cell_witness :
  data (generate_wave (8, 16)%nat 12.3 (0, 0)) !! (15 * 8 + 7)%nat
  = Some ((sin (linspace_point (- PI) PI 16 15 * 12.3 + 0)
           * cos (linspace_point (- PI) PI 8 7 * 12.3 * 1.3 + 0)
           + cos (linspace_point (- PI) PI 16 15 * 12.3 * 0.7 + 0)
             * sin (linspace_point (- PI) PI 8 7 * 12.3 * 1.7 + 0)
           + sin ((linspace_point (- PI) PI 16 15 + linspace_point (- PI) PI 8 7)
                  * 12.3 * 0.5)
             * cos ((linspace_point (- PI) PI 16 15 - linspace_point (- PI) PI 8 7)
                    * 12.3 * 0.8)) / 3).
Proof. apply (generate_wave_cell 8 16 12.3 (0, 0) 15 7); lia. Defined.

(** ** The range of the generated fields *)

Lemma Forall_map_impl {A B} (P : A -> Prop) (Q : B -> Prop) (f : A -> B)
    (l : list A) :
  (∀ x, P x -> Q (f x)) -> Forall P l -> Forall Q (map f l).
Proof.
  intros Hf Hl. induction Hl as [|x l Hx Hl IH]; cbn; constructor; auto.
Qed.

Lemma sin_cos_product_range (a b : tensor R) (f g : R -> R) :
  Forall (fun v => -1 <= v <= 1)
         (zip_with Rmult (map (fun v => sin (f v)) (data a))
                         (map (fun v => cos (g v)) (data b))).
Proof.
  apply (Forall_zip_with_intro (fun v => -1 <= v <= 1) (fun v => -1 <= v <= 1)).
  - apply product_in_unit.
  - apply Forall_map_intro. intros v. apply SIN_bound.
  - apply Forall_map_intro. intros v. apply COS_bound.
Qed.

Lemma cos_sin_product_range (a b : tensor R) (f g : R -> R) :
  Forall (fun v => -1 <= v <= 1)
         (zip_with Rmult (map (fun v => cos (f v)) (data a))
                         (map (fun v => sin (g v)) (data b))).
Proof.
  apply (Forall_zip_with_intro (fun v => -1 <= v <= 1) (fun v => -1 <= v <= 1)).
  - apply product_in_unit.
  - apply Forall_map_intro. intros v. apply COS_bound.
  - apply Forall_map_intro. intros v. apply SIN_bound.
Qed.

Lemma generate_simplex_range (shp : nat * nat) (freq : R) :
  unit_range (generate_simplex shp freq).
Proof.
  unfold unit_range, generate_simplex, tmul, tscale, tmap2, tmap. cbn [data].
  rewrite !map_map.
  apply (Forall_zip_with_intro (fun v => -1 <= v <= 1) (fun v => 0 <= v <= 1)).
  - intros a b Ha Hb. nra.
  - apply Forall_map_intro. intros v.
    match goal with |- -1 <= tanh ?y <= 1 => pose proof (tanh_bounds y) end. lra.
  - apply Forall_map_intro. intros v.
    match goal with |- 0 <= sigmoid ?y <= 1 => pose proof (sigmoid_bounds y) end.
    lra.
Qed.

Lemma generate_wave_range (shp : nat * nat) (frequency : R) (phases : R * R) :
  unit_range (generate_wave shp frequency phases).
Proof.
  unfold unit_range, generate_wave.
  destruct (torch.meshgrid _ _) as [xx yy]. cbv zeta.
  unfold tadd, tsub, tmul, tshift, tscale, tmap2, tmap. cbn [data shape].
  rewrite !map_map.
  apply (Forall_map_impl (fun v => -3 <= v <= 3)); [intros v Hv; lra|].
  apply (Forall_zip_with_intro (fun v => -2 <= v <= 2) (fun v => -1 <= v <= 1));
    [intros a b Ha Hb; lra| |].
  - apply (Forall_zip_with_intro (fun v => -1 <= v <= 1) (fun v => -1 <= v <= 1));
      [intros a b Ha Hb; lra| |].
    + apply (sin_cos_product_range xx yy).
    + apply (cos_sin_product_range xx yy).
  - apply (Forall_zip_with_intro (fun v => -1 <= v <= 1) (fun v => -1 <= v <= 1)).
    + apply product_in_unit.
    + apply Forall_map_intro. intros v. apply SIN_bound.
    + apply Forall_map_intro. intros v. apply COS_bound.
Qed.

Lemma domain_warp_range (noise warped : tensor R) (warp_factor timestamp : R) :
  domain_warp noise warp_factor timestamp = Ok warped -> unit_range warped.
Proof.
  unfold domain_warp.
  destruct (shape noise) as [|height [|width [|? ?]]]; try done.
  destruct (torch.meshgrid _ _) as [grid_x grid_y].
  destruct (torch.grid_sample _ _ _) as [sampled|e]; [|done].
  cbn [mbind result_bind mret result_ret]. intros [= <-].
  unfold unit_range, tscale, tmap. cbn [data]. rewrite map_map.
  apply Forall_map_intro. intros v.
  match goal with |- -1 <= tanh ?y <= 1 => pose proof (tanh_bounds y) end. lra.
Qed.

Lemma generate_cellular_range (shp : nat * nat) (numPoints : Z) (chaos_factor : R)
    (g g' : rng) (t : tensor R) :
  generate_cellular shp numPoints chaos_factor g = Ok (t, g') -> unit_range t.
Proof.
  unfold generate_cellular. rewrite M_bind_unfold.
  destruct (torch.rand2 numPoints g) as [[u g1]|e]; [|done].
  rewrite M_bind_unfold.
  destruct (_ ≫= _) as [distances1|e]; cbn [lift]; [|done].
  rewrite M_bind_unfold.
  destruct (_ ≫= _) as [distances2|e]; cbn [lift]; [|done].
  intros [= <- _].
  unfold unit_range, tmul, tscale, tmap2, tmap. cbn [data]. rewrite !map_map.
  apply (sin_cos_product_range distances1 distances2).
Qed.

(** X3: Whichever of simplex, cellular, wave and domain_warp the dispatch
    selects, with a timestamp, an energy factor and a chaos in the float32
    range, the field it hands to the normalisation has all its values in
    [-1, 1]. *)
Theorem dispatch_unit_range (noise_type : string) (H W : nat)
    (timestamp energy_factor chaos persistence : R) (g g' : rng)
    (base : tensor R) (persistence' : R) :
  noise_type ≠ "fbm"%string ->
  float32_range timestamp -> float32_range energy_factor ->
  float32_range chaos ->
  dispatch noise_type H W timestamp energy_factor chaos persistence g
  = Ok ((base, persistence'), g') ->
  unit_range base.
Proof.
  intros Hfbm _ _ _. unfold dispatch. repeat case_decide.
  - intros [= <- _ _]. apply generate_simplex_range.
  - rewrite M_bind_unfold.
    destruct (generate_cellular _ _ _ g) as [[t g1]|e] eqn:Hc; [|done].
    intros [= <- _ _]. by eapply generate_cellular_range.
  - done.
  - intros [= <- _ _]. apply generate_wave_range.
  - rewrite M_bind_unfold.
    destruct (domain_warp _ _ _) as [warped|e] eqn:Hw; [|done].
    cbn [lift]. intros [= <- _ _]. by eapply domain_warp_range.
  - done.
Qed.

Lemma dispatch_unit_range_witness :
  unit_range (generate_wave (8, 8)%nat (0.3 + 1 * 12)
                (0 * 8 * PI * 0.5, 0 * 6 * PI * (2 - 0.5))).
Proof.
  apply (dispatch_unit_range "wave" 8 8 0 1 0.5 0.5 (fun _ => 0) (fun _ => 0)
           _ 0.5).
  - done.
  - apply float32_range_small. lra.
  - apply float32_range_small. lra.
  - apply float32_range_small. lra.
  - reflexivity.
Defined.

(** ** Orientation of the fields, for every resolution *)

(** X4: For every target resolution [(H, W)]: simplex, fbm and cellular return
    [(H, W)] fields, the wave generator a [(W, H)] field, and the domain warp
    swaps the axes of a field that is not empty, so that warping twice
    restores them; an empty field it refuses with [RuntimeError]. *)
Theorem field_orientation (H W : nat) :
  (∀ freq, has_shape (generate_simplex (H, W) freq) H W)
  ∧ (∀ octaves persistence lacunarity chaos,
       has_shape (generate_fbm (H, W) octaves persistence lacunarity chaos) H W)
  ∧ (∀ numPoints chaos_factor g t g',
       generate_cellular (H, W) numPoints chaos_factor g = Ok (t, g') ->
       has_shape t H W)
  ∧ (∀ frequency phases, has_shape (generate_wave (H, W) frequency phases) W H)
  ∧ (∀ noise warp_factor timestamp warp_factor' timestamp',
       has_shape noise H W ->
       ((0 < H)%nat -> (0 < W)%nat ->
        ∃ warped back,
          domain_warp noise warp_factor timestamp = Ok warped
          ∧ has_shape warped W H
          ∧ domain_warp warped warp_factor' timestamp' = Ok back
          ∧ has_shape back H W)
       ∧ ((H = 0 ∨ W = 0)%nat ->
          domain_warp noise warp_factor timestamp = Err RuntimeError)).
Proof.
  split; [intros; apply generate_simplex_has_shape|].
  split; [intros; apply generate_fbm_has_shape|].
  split.
  { intros numPoints chaos_factor g t g' Hc.
    by apply generate_cellular_has_shape in Hc as [? _]. }
  split; [intros; apply generate_wave_has_shape|].
  intros noise warp_factor timestamp warp_factor' timestamp' Hn. split.
  - intros HH HW.
    destruct (domain_warp_has_shape noise H W warp_factor timestamp Hn HH HW)
      as (warped & Hw & Hsw).
    destruct (domain_warp_has_shape warped W H warp_factor' timestamp' Hsw HW HH)
      as (back & Hb & Hsb).
    by exists warped, back.
  - by apply domain_warp_empty.
Qed.

Lemma field_orientation_witness :
  (∃ warped back,
     domain_warp (generate_simplex (4, 6)%nat 1) 0.1 0 = Ok warped
     ∧ has_shape warped 6 4
     ∧ domain_warp warped 0.1 0 = Ok back
     ∧ has_shape back 4 6)
  ∧ domain_warp (generate_simplex (8, 0)%nat 1) 0.1 0 = Err RuntimeError.
Proof.
  split.
  - destruct (field_orientation 4 6) as (Hsimplex & _ & _ & _ & Hwarp).
    apply (Hwarp _ 0.1 0 0.1 0 (Hsimplex 1)); lia.
  - destruct (field_orientation 8 0) as (Hsimplex & _ & _ & _ & Hwarp).
    apply (Hwarp _ 0.1 0 0.1 0 (Hsimplex 1)). by right.
Defined.

(** ** The first octaves of fbm *)

Lemma tanh_0 : tanh 0 = 0.
Proof. unfold tanh. rewrite sinh_0. unfold Rdiv. apply Rmult_0_l. Qed.

(** X5: Without octaves fbm returns the zero field, and with one octave it is
    [tanh] of the simplex field at frequency [chaos], whatever the
    persistence and the lacunarity. *)
Theorem generate_fbm_first_octaves (H W : nat) (persistence lacunarity chaos : R) :
  (∀ octaves, (octaves <= 0)%Z ->
     generate_fbm (H, W) octaves persistence lacunarity chaos
     = torch.zeros 0 [H; W])
  ∧ generate_fbm (H, W) 1 persistence lacunarity chaos
    = tmap tanh (generate_simplex (H, W) chaos).
Proof.
  split.
  - intros octaves Ho. unfold generate_fbm. cbn [fst snd].
    replace (Z.to_nat octaves) with 0%nat by lia.
    cbn [Nat.iter nat_rect]. unfold tmap, torch.zeros. cbn [shape data].
    f_equal. change (map tanh ?l) with (tanh <$> l). rewrite fmap_replicate.
    by rewrite tanh_0.
  - unfold generate_fbm. cbn [fst snd].
    change (Z.to_nat 1) with 1%nat. cbn [Nat.iter nat_rect].
    rewrite Rmult_1_l.
    destruct (generate_simplex_has_shape H W chaos) as [Hs Hl].
    unfold tadd, tmap2, tmap. cbn [torch.zeros shape data]. rewrite Hs.
    do 2 f_equal.
    change (map (Rmult 1) ?l) with (Rmult 1 <$> l).
    rewrite zip_with_replicate_l
      by (rewrite length_fmap, Hl; cbn; lia).
    rewrite <- list_fmap_compose. rewrite <- (list_fmap_id (data _)) at 2.
    apply list_fmap_ext. intros _ v _. cbn. lra.
Qed.

Lemma generate_fbm_first_octaves_witness :
  generate_fbm (8, 8)%nat (-3) 0.5 2 1 = torch.zeros 0 [8; 8]%nat.
Proof.
  destruct (generate_fbm_first_octaves 8 8 0.5 2 1) as [Hzero _].
  apply Hzero. lia.
Defined.

(** ** The schedule between the first and the last timestamp *)

(** X7: With a positive last timestamp and a non-negative intensity, the
    timestamps from zero to the last one have a [time_scale] in [0, 1] and an
    [energy_factor] between [intensity] and [intensity * exp 2]; both grow
    with the timestamp, from [0] and [intensity] at timestamp zero to [1] and
    [intensity * exp 2] at the last timestamp. *)
Theorem schedule_bounds (timestamps : list R) (final intensity : R) :
  last timestamps = Some final -> 0 < final -> 0 <= intensity ->
  let energy t := energy_factor_of intensity (time_scale_value t final) in
  (∀ t, 0 <= t <= final ->
     time_scale_of t timestamps = Ok (time_scale_value t final)
     ∧ 0 <= time_scale_value t final <= 1
     ∧ intensity <= energy t <= intensity * exp 2)
  ∧ (∀ t1 t2, 0 <= t1 -> t1 <= t2 ->
       time_scale_value t1 final <= time_scale_value t2 final
       ∧ energy t1 <= energy t2)
  ∧ time_scale_value 0 final = 0 ∧ energy 0 = intensity
  ∧ time_scale_value final final = 1 ∧ energy final = intensity * exp 2.
Proof.
  intros Hlast Hf Hi energy.
  assert (energy 0 = intensity) as He0.
  { subst energy. cbn beta. rewrite time_scale_value_first, energy_factor_of_exp.
    replace (2 * 0) with 0 by ring. rewrite exp_0. ring. }
  assert (energy final = intensity * exp 2) as He1.
  { subst energy. cbn beta. rewrite time_scale_value_last by done.
    rewrite energy_factor_of_exp. by replace (2 * 1) with 2 by ring. }
  assert (∀ t1 t2, 0 <= t1 -> t1 <= t2 ->
            time_scale_value t1 final <= time_scale_value t2 final
            ∧ energy t1 <= energy t2) as Hmono.
  { intros t1 t2 H1 H12.
    pose proof (time_scale_value_mono t1 t2 final Hf H1 H12) as Hs.
    split; [done|]. by apply energy_factor_of_mono. }
  split; [|split; [exact Hmono|]].
  - intros t [Ht0 Ht1]. split; [|split].
    + apply time_scale_of_value; [done | lra | by apply ratio_nonneg].
    + split; [apply time_scale_value_nonneg|].
      rewrite <- (time_scale_value_last final Hf). by apply Hmono.
    + rewrite <- He0 at 1. rewrite <- He1. split; apply Hmono; lra.
  - split; [apply time_scale_value_first|]. split; [done|].
    split; [by apply time_scale_value_last | done].
Qed.

Lemma schedule_bounds_witness :
  time_scale_of 0.5 [0; 0.5; 1] = Ok (time_scale_value 0.5 1)
  ∧ 0 <= time_scale_value 0.5 1 <= 1
  ∧ 1 <= energy_factor_of 1 (time_scale_value 0.5 1) <= 1 * exp 2.
Proof.
  destruct (schedule_bounds [0; 0.5; 1] 1 1) as (Hin & _).
  - reflexivity.
  - lra.
  - lra.
  - apply Hin. lra.
Defined.

(** ** The parameters derived from the energy factor *)

Lemma py_int_floor (x : R) : 0 <= x -> IZR (py_int x) <= x < IZR (py_int x) + 1.
Proof.
  intros Hx. unfold py_int. destruct (Rle_dec 0 x) as [_|?]; [|done].
  destruct (base_Int_part x). lra.
Qed.

Lemma py_int_le (x : R) (n : Z) : 0 <= x <= IZR n -> (py_int x <= n)%Z.
Proof.
  intros [H0 Hn]. apply le_IZR. pose proof (py_int_floor x H0). lra.
Qed.

(** X8: For an energy factor between 0 and [schedule_bound] the cellular
    branch asks for between 3 and 1503 seed points and the fbm branch sums
    between 2 and 62 octaves; on a latent that is not empty the cellular
    dispatch then returns an [(H, W)] field, leaves [persistence] as it was
    and advances the generator by an even number of samples, at least six. *)
Theorem derived_counts (energy_factor : R) :
  0 <= energy_factor <= schedule_bound ->
  let points := py_int (3 + energy_factor * 150) in
  let octaves := py_int (2 + energy_factor * 6) in
  (3 <= points <= 1503)%Z ∧ (2 <= octaves <= 62)%Z
  ∧ ∀ H W timestamp chaos persistence g,
      (0 < H)%nat -> (0 < W)%nat ->
      ∃ base g' n,
        dispatch "cellular" H W timestamp energy_factor chaos persistence g
        = Ok ((base, persistence), g')
        ∧ has_shape base H W
        ∧ (6 <= n)%nat ∧ Nat.even n = true
        ∧ ∀ i, g' i = g (n + i)%nat.
Proof.
  intros He points octaves. unfold schedule_bound in He.
  assert (3 <= points)%Z as Hp by (apply py_int_ge; [lra | lia]).
  split; [split; [done | apply py_int_le; lra]|].
  split; [split; [apply py_int_ge; [lra | lia] | apply py_int_le; lra]|].
  intros H W timestamp chaos persistence g _ _.
  destruct (generate_cellular_cells H W points chaos g) as (t & Hc & Hs & _);
    [lia|].
  exists t, (fun i => g (2 * Z.to_nat points + i)%nat), (2 * Z.to_nat points)%nat.
  split; [|split; [done|]].
  - unfold dispatch. repeat case_decide; try done.
    rewrite M_bind_unfold. fold points. by rewrite Hc.
  - split; [lia|]. split; [|done].
    rewrite Nat.even_mul. reflexivity.
Qed.

Lemma derived_counts_witness :
  (3 <= py_int (3 + 1 * 150) <= 1503)%Z ∧ (2 <= py_int (2 + 1 * 6) <= 62)%Z.
Proof.
  destruct (derived_counts 1) as (Hp & Ho & _).
  - unfold schedule_bound. lra.
  - split; [exact Hp | exact Ho].
Defined.

(** ** Calls that cannot reach the channel loop *)

Lemma dispatch_unknown (noise_type : string) (H W : nat)
    (timestamp energy_factor chaos persistence : R) (g : rng) :
  ¬ known_type noise_type ->
  dispatch noise_type H W timestamp energy_factor chaos persistence g
  = Err UnboundLocalError.
Proof.
  intros Hun. unfold dispatch.
  repeat case_decide; try done; exfalso; apply Hun; subst; unfold known_type;
    apply (bool_decide_unpack _); by vm_compute.
Qed.

Lemma defaults_map_unknown (key : string) :
  ¬ known_type key -> key ≠ "timestamps"%string -> defaults_map !! key = None.
Proof.
  intros Hun Hts. unfold known_type in Hun.
  rewrite !not_elem_of_cons in Hun.
  destruct Hun as (? & ? & ? & ? & ? & _).
  unfold defaults_map, default_noise_params. cbn [list_to_map foldr fst snd curry].
  by rewrite !lookup_insert_ne, lookup_empty.
Qed.

(** X9: A noise type outside the five families: when the mapping has no entry
    for it the call raises [KeyError] at [noise_params[noise_type]]; when the
    caller supplied a sub-mapping under that name the schedule of the first
    timestamp is still evaluated (a zero last timestamp raises
    [ZeroDivisionError]) and the normalisation then finds [base_noise]
    unbound. *)
Theorem unknown_noise_type_raises (noise_params : gmap string pyval)
    (width height : nat) (noise_type analysis_type : string) (g : rng)
    (t : R) (rest : list R) :
  get_list (effective_params noise_params) "timestamps" = Ok (t :: rest) ->
  ¬ known_type noise_type -> noise_type ≠ "timestamps"%string ->
  let r := returned (generate_advanced_noise noise_params width height noise_type
                       analysis_type g) in
  (noise_params !! noise_type = None -> r = Err (KeyError noise_type))
  ∧ (∀ d, noise_params !! noise_type = Some (VDict d) ->
       (∀ time_scale, time_scale_of t (t :: rest) = Ok time_scale ->
          r = Err UnboundLocalError)
       ∧ (last (t :: rest) = Some 0 -> r = Err ZeroDivisionError)).
Proof.
  intros Hts Hun Hne r. subst r. rewrite returned_body. split.
  - intros Hnone. unfold body. rewrite M_bind_unfold, (get_list_item _ _ _ Hts). cbn [lift py_len].
    destruct (decide _) as [?|_]; [done|].
    rewrite M_bind_unfold. unfold get_dict, get_item.
    rewrite effective_params_lookup, Hnone, defaults_map_unknown by done. done.
  - intros d Hd.
    assert (get_dict (effective_params noise_params) noise_type = Ok d) as Hget.
    { unfold get_dict, get_item. by rewrite effective_params_lookup, Hd. }
    split.
    + intros time_scale Hs.
      apply (body_prepare_raises _ _ _ _ _ t rest d); [done | done |].
      unfold prepare. rewrite M_bind_unfold, Hs. cbn [lift].
      rewrite M_bind_unfold. by rewrite dispatch_unknown.
    + intros Hlast.
      apply (body_prepare_raises _ _ _ _ _ t rest d); [done | done |].
      apply prepare_schedule_raises. by apply time_scale_of_zero_last.
Qed.

Lemma unknown_noise_type_raises_witness :
  returned (generate_advanced_noise ∅ 64 64 "perlin" "" (fun _ => 0))
  = Err (KeyError "perlin").
Proof.
  apply (unknown_noise_type_raises ∅ 64 64 "perlin" "" (fun _ => 0) 0 [0.5; 1]).
  - reflexivity.
  - apply (bool_decide_unpack _). by vm_compute.
  - discriminate.
  - reflexivity.
Defined.

Lemma normalize_empty (base : tensor R) :
  data base = [] -> normalize base = Err RuntimeError.
Proof. intros Hnil. unfold normalize, torch.min. by rewrite Hnil. Qed.

(** An exception of the normalisation in the first iteration is the
    exception of the call. *)
Lemma body_normalize_raises (params : gmap string pyval) (width height : nat)
    (noise_type : string) (g g1 : rng) (t : R) (rest : list R)
    (d : gmap string R) (f : field) (persistence : R) (e : exn) :
  get_list params "timestamps" = Ok (t :: rest) ->
  get_dict params noise_type = Ok d ->
  prepare noise_type (height / 8) (width / 8)
    (default 1 (d !! "intensity"%string)) (t :: rest)
    (default 0.5 (d !! "persistence"%string)) t g = Ok ((f, persistence), g1) ->
  normalize (f_base f) = Err e ->
  body params width height noise_type g = Err e.
Proof.
  intros Hts Hd Hprep Hnorm. unfold body. rewrite M_bind_unfold, (get_list_item _ _ _ Hts). cbn [lift py_len].
  destruct (decide _) as [?|_]; [done|].
  rewrite M_bind_unfold, Hd. cbn [lift]. rewrite M_bind_unfold.
  unfold enumerate. cbn [length seq zip zip_with for_in].
  rewrite M_bind_unfold. unfold iteration at 1. rewrite M_bind_unfold.
  cbn [l_persistence]. rewrite Hprep. rewrite M_bind_unfold. by rewrite Hnorm.
Qed.



(** ** Degenerate batches *)






Lemma prepare_schedule (noise_type : string) (H W : nat) (intensity : R)
    (timestamps : list R) (persistence timestamp : R) (g g' : rng) (f : field)
    (persistence' : R) :
  prepare noise_type H W intensity timestamps persistence timestamp g
  = Ok ((f, persistence'), g') ->
  ∃ time_scale,
    time_scale_of timestamp timestamps = Ok time_scale
    ∧ f_energy f = energy_factor_of intensity time_scale
    ∧ f_chaos f = chaos_of timestamp
    ∧ dispatch noise_type H W timestamp (energy_factor_of intensity time_scale)
        (chaos_of timestamp) persistence g = Ok ((f_base f, persistence'), g').
Proof.
  unfold prepare. rewrite M_bind_unfold.
  destruct (time_scale_of timestamp timestamps) as [time_scale|]; [|done].
  cbn [lift]. rewrite M_bind_unfold.
  destruct (dispatch _ _ _ _ _ _ _ g) as [[[base p] g1]|] eqn:Hd; [|done].
  intros [= <- <- <-]. by exists time_scale.
Qed.

Lemma channel_zero_energy (norm : tensor fval) (chaos : R) (c : nat) :
  Forall (fun v => v = Fin 0 ∨ v = NaN) (data (channel norm 0 chaos c)).
Proof.
  unfold channel, tmap. cbn [data]. rewrite map_map.
  apply List.Forall_forall. intros v Hin.
  apply in_map_iff in Hin as (u & <- & _).
  destruct u as [x|neg|]; cbn [fscale fsin ftanh].
  - left. match goal with |- Fin (tanh ?a) = _ => replace a with 0 by ring end.
    by rewrite tanh_0.
  - right. by destruct (Req_dec_T _ 0).
  - by right.
Qed.

Lemma broadcast_to_Forall (P : fval -> Prop) (v : tensor fval) (H W : nat)
    (d : list fval) :
  P NaN -> Forall P (data v) -> broadcast_to v H W = Some d -> Forall P d.
Proof.
  intros Hnan Hv. unfold broadcast_to.
  destruct (shape v) as [|h [|w [|? ?]]]; try done.
  destruct (decide _) as [_|_]; [by intros [= <-]|].
  destruct (decide _) as [_|_]; [|done]. intros [= <-].
  apply Forall_flat_map. intros r _. apply List.Forall_forall. intros u Hin.
  apply in_map_iff in Hin as (c & <- & _).
  match goal with |- P (nth ?n _ _) =>
    destruct (nth_in_or_default n (data v) NaN) as [Hin| ->]; [|done] end.
  by apply (proj1 (List.Forall_forall _ _) Hv).
Qed.

Lemma setitem_Forall (P : fval -> Prop) (batch v batch' : tensor fval)
    (i c : nat) :
  P NaN -> Forall P (data batch) -> Forall P (data v) ->
  setitem batch i c v = Ok batch' -> Forall P (data batch').
Proof.
  intros Hnan Hb Hv. unfold setitem.
  destruct (shape batch) as [|B [|C [|H [|W [|? ?]]]]]; try done.
  destruct (decide _) as [_|_]; [|done].
  destruct (broadcast_to v H W) as [d|] eqn:Hd; [|done].
  intros [= <-]. cbn [data].
  apply Forall_app. split; [by apply Forall_take|].
  apply Forall_app. split; [by eapply broadcast_to_Forall|].
  by apply Forall_drop.
Qed.

Lemma energy_factor_of_zero (time_scale : R) : energy_factor_of 0 time_scale = 0.
Proof. rewrite energy_factor_of_exp. ring. Qed.

(** X12: With intensity zero the energy factor vanishes at every timestamp:
    whatever batch the call returns, each element of it is 0 or NaN. *)
Theorem zero_intensity_batch (noise_params : gmap string pyval)
    (width height : nat) (noise_type analysis_type : string) (g : rng)
    (d : gmap string R) (batch : tensor fval) (ts : list R) (g' : rng) :
  get_dict (effective_params noise_params) noise_type = Ok d ->
  d !! "intensity"%string = Some 0 ->
  returned (generate_advanced_noise noise_params width height noise_type
              analysis_type g) = Ok ((Latent batch, ts), g') ->
  Forall (fun v => v = Fin 0 ∨ v = NaN) (data batch).
Proof.
  intros Hd Hzero. rewrite returned_body. unfold body. rewrite M_bind_unfold.
  destruct (get_item _ "timestamps") as [v|e]; [|done].
  cbn [lift]. destruct (decide _) as [_|_].
  - intros [= <- _ _]. cbn. apply Forall_replicate. by left.
  - rewrite M_bind_unfold, Hd. cbn [lift].
    destruct v as [timestamps|keys]; [|done]. rewrite M_bind_unfold.
    rewrite Hzero. cbn [default].
    destruct (for_in _ _ _ g) as [[st g1]|e] eqn:Hloop; [|done].
    intros [= <- _ _]. revert Hloop.
    apply (for_in_invariant
             (fun st => Forall (fun v => v = Fin 0 ∨ v = NaN)
                          (data (l_noise_batch st)))).
    + intros s [i t] g2 s' g3 Hs. unfold iteration. rewrite M_bind_unfold.
      destruct (prepare _ _ _ _ _ _ _ g2) as [[[f p1] g4]|e] eqn:Hprep; [|done].
      destruct (prepare_schedule _ _ _ _ _ _ _ _ _ _ _ Hprep)
        as (time_scale & _ & He & _).
      rewrite energy_factor_of_zero in He. rewrite He.
      rewrite M_bind_unfold.
      destruct (normalize (f_base f)) as [norm|e]; [|done].
      cbn [lift]. rewrite M_bind_unfold.
      destruct (for_in (seq 0 4) _ _ g4) as [[b g5]|e] eqn:Hch; [|done].
      intros [= <- _]. cbn [l_noise_batch]. revert Hch.
      apply (for_in_invariant
               (fun b => Forall (fun v => v = Fin 0 ∨ v = NaN) (data b))); [|done].
      intros b0 c g6 b1 g7 Hb0. unfold lift.
      destruct (setitem b0 i c _) as [b2|e] eqn:Hset; [|done].
      intros [= <- _].
      eapply (setitem_Forall (fun v => v = Fin 0 ∨ v = NaN));
        [by right | exact Hb0 | apply channel_zero_energy | exact Hset].
    + cbn. apply Forall_replicate. by left.
Qed.

Lemma zero_intensity_batch_witness :
  ∃ batch g',
    returned (generate_advanced_noise
                {[ "fbm"%string := VDict {[ "intensity"%string := 0 ]} ]}
                64 64 "fbm" "" (fun _ => 0))
    = Ok ((Latent batch, [0; 0.5; 1]), g')
    ∧ Forall (fun v => v = Fin 0 ∨ v = NaN) (data batch).
Proof.
  destruct (call_frames
              {[ "fbm"%string := VDict {[ "intensity"%string := 0 ]} ]}
              64 64 "fbm" "" (fun _ => 0) [0; 0.5; 1]
              {[ "intensity"%string := 0 ]} 1)
    as (frames & p' & g' & _ & Hret).
  - reflexivity.
  - reflexivity.
  - reflexivity.
  - lra.
  - repeat constructor; lra.
  - rewrite lookup_singleton_eq. cbn. lra.
  - apply (bool_decide_unpack _). by vm_compute.
  - cbn. lia.
  - left. reflexivity.
  - eexists _, g'. split; [exact Hret|].
    eapply (zero_intensity_batch
              {[ "fbm"%string := VDict {[ "intensity"%string := 0 ]} ]}
              64 64 "fbm" "" (fun _ => 0) {[ "intensity"%string := 0 ]});
      [reflexivity | reflexivity | exact Hret].
Defined.

(** ** The random generator across a whole call *)

Lemma generator_free_lift {A} (r : result A) : generator_free (lift r).
Proof. by exists r. Qed.

Lemma generator_free_ret {A} (a : A) : generator_free (mret a : M A).
Proof. by exists (Ok a). Qed.

Lemma generator_free_raise {A} (e : exn) : generator_free (raise e : M A).
Proof. by exists (Err e). Qed.

Lemma generator_free_bind {A B} (m : M A) (k : A -> M B) :
  generator_free m -> (∀ a, generator_free (k a)) -> generator_free (m ≫= k).
Proof.
  intros [[a|e] Hm] Hk.
  - destruct (Hk a) as [r Hr]. exists r. intros g.
    rewrite M_bind_unfold, Hm. cbn [lift]. apply Hr.
  - exists (Stop e). intros g. by rewrite M_bind_unfold, Hm.
Qed.

Lemma generator_free_for_in {A S} (xs : list A) (body : S -> A -> M S) :
  (∀ s x, generator_free (body s x)) -> ∀ s, generator_free (for_in xs body s).
Proof.
  intros Hbody. induction xs as [|x xs IH]; intros s; cbn [for_in].
  - apply generator_free_ret.
  - by apply generator_free_bind.
Qed.

Lemma dispatch_generator_free (noise_type : string) (H W : nat)
    (timestamp energy_factor chaos persistence : R) :
  noise_type ≠ "cellular"%string ->
  generator_free
    (dispatch noise_type H W timestamp energy_factor chaos persistence).
Proof.
  intros Hne. unfold dispatch. repeat case_decide; try done.
  - apply generator_free_ret.
  - apply generator_free_ret.
  - apply generator_free_ret.
  - apply generator_free_bind; [apply generator_free_lift|].
    intros a. apply generator_free_ret.
  - apply generator_free_raise.
Qed.

Lemma iteration_generator_free (noise_type : string) (H W : nat) (intensity : R)
    (timestamps : list R) (st : locals) (it : nat * R) :
  noise_type ≠ "cellular"%string ->
  generator_free (iteration noise_type H W intensity timestamps st it).
Proof.
  intros Hne. unfold iteration. destruct it as [i timestamp].
  apply generator_free_bind.
  - unfold prepare. apply generator_free_bind; [apply generator_free_lift|].
    intros time_scale. apply generator_free_bind.
    + by apply dispatch_generator_free.
    + intros [base p]. apply generator_free_ret.
  - intros [f p]. apply generator_free_bind; [apply generator_free_lift|].
    intros base. apply generator_free_bind.
    + apply generator_free_for_in. intros b c. apply generator_free_lift.
    + intros b. apply generator_free_ret.
Qed.

(** X13: For every noise type but "cellular" the whole call neither reads nor
    advances the random generator: there is one result, value or exception,
    that the call yields from every generator state, and a returning call
    hands the state back as it found it. *)
Theorem noncellular_call_generator_free (noise_params : gmap string pyval)
    (width height : nat) (noise_type analysis_type : string) :
  noise_type ≠ "cellular"%string ->
  generator_free
    (fun g => returned (generate_advanced_noise noise_params width height
                          noise_type analysis_type g)).
Proof.
  intros Hne.
  assert (generator_free
            (body (effective_params noise_params) width height noise_type))
    as [r Hr].
  { unfold body. apply generator_free_bind; [apply generator_free_lift|].
    intros timestamps. case_decide; [apply generator_free_ret|].
    apply generator_free_bind; [apply generator_free_lift|].
    intros base_params.
    destruct timestamps as [timestamps|keys]; [|apply generator_free_raise].
    apply generator_free_bind.
    - apply generator_free_for_in. intros st it.
      by apply iteration_generator_free.
    - intros st. apply generator_free_ret. }
  exists r. intros g. by rewrite returned_body.
Qed.

Lemma noncellular_call_generator_free_witness :
  generator_free
    (fun g => returned (generate_advanced_noise ∅ 64 64 "fbm" "" g)).
Proof. apply noncellular_call_generator_free. discriminate. Defined.

Lemma dispatch_cellular_draws (H W : nat)
    (timestamp energy_factor chaos persistence : R) (g g' : rng)
    (base : tensor R) (persistence' : R) :
  dispatch "cellular" H W timestamp energy_factor chaos persistence g
  = Ok ((base, persistence'), g') ->
  (1 <= py_int (3 + energy_factor * 150))%Z
  ∧ ∀ i, g' i = g (2 * Z.to_nat (py_int (3 + energy_factor * 150)) + i)%nat.
Proof.
  unfold dispatch. repeat case_decide; try done. rewrite M_bind_unfold.
  destruct (generate_cellular _ _ _ g) as [[t g1]|e] eqn:Hc; [|done].
  intros [= _ _ <-].
  destruct (generate_cellular_has_shape _ _ _ _ _ _ _ Hc) as [_ Hpts].
  split; [done|].
  destruct (generate_cellular_cells H W _ chaos g Hpts) as (t' & Hc' & _).
  rewrite Hc in Hc'. by injection Hc' as _ ->.
Qed.

Lemma cellular_draws_cons (intensity final t : R) (ts : list R) :
  cellular_draws intensity final (t :: ts)
  = (2 * cellular_points intensity final t + cellular_draws intensity final ts)%nat.
Proof. reflexivity. Qed.

Lemma frames_of_cellular_draws (H W : nat) (intensity final : R)
    (timestamps : list R) :
  last timestamps = Some final -> final ≠ 0 ->
  ∀ (ts : list R) (persistence : R) (g : rng) frames persistence' g',
    Forall (fun t => 0 <= t / final) ts ->
    frames_of "cellular" H W intensity timestamps ts persistence g
    = Ok ((frames, persistence'), g') ->
    ∀ i, g' i = g (cellular_draws intensity final ts + i)%nat.
Proof.
  intros Hlast Hne.
  induction ts as [|t ts IH]; intros persistence g frames p' g' Hall.
  - cbn. by intros [= _ _ <-].
  - cbn [frames_of]. rewrite M_bind_unfold.
    destruct (prepare _ _ _ _ _ _ _ g) as [[[f p1] g1]|e] eqn:Hprep; [|done].
    rewrite M_bind_unfold.
    destruct (normalize (f_base f)) as [norm|e]; [|done].
    cbn [lift]. rewrite M_bind_unfold.
    destruct (frames_of _ _ _ _ _ ts p1 g1) as [[[frames1 p2] g2]|e] eqn:Hrest;
      [|done].
    intros [= _ _ <-] i.
    apply Forall_cons in Hall as [Ht Hall].
    rewrite (IH _ _ _ _ _ Hall Hrest).
    destruct (prepare_schedule _ _ _ _ _ _ _ _ _ _ _ Hprep)
      as (time_scale & Hs & _ & _ & Hdisp).
    rewrite (time_scale_of_value _ _ _ Hlast Hne Ht) in Hs.
    injection Hs as <-.
    destruct (dispatch_cellular_draws _ _ _ _ _ _ _ _ _ _ Hdisp) as [_ ->].
    rewrite cellular_draws_cons. unfold cellular_points. f_equal. lia.
Qed.

Lemma cellular_draws_lower (intensity final : R) (ts : list R) :
  0 <= intensity -> (6 * length ts <= cellular_draws intensity final ts)%nat.
Proof.
  intros Hi.
  induction ts as [|t ts IH]; [cbn; lia|].
  rewrite cellular_draws_cons. cbn [length].
  assert (3 <= cellular_points intensity final t)%nat; [|lia].
  unfold cellular_points.
  assert (3 <= py_int (3 + energy_factor_of intensity
                             (time_scale_value t final) * 150))%Z; [|lia].
  apply py_int_ge; [|lia].
  pose proof (energy_factor_of_nonneg intensity (time_scale_value t final) Hi).
  lra.
Qed.

Lemma cellular_draws_upper (intensity final : R) (ts : list R) :
  0 <= intensity -> Forall (schedule_in_range intensity final) ts ->
  (Z.of_nat (cellular_draws intensity final ts)
   <= 3006 * Z.of_nat (length ts))%Z.
Proof.
  intros Hi Hall.
  induction Hall as [|t ts [_ Ht] _ IH]; [cbn; lia|].
  rewrite cellular_draws_cons. cbn [length].
  assert (Z.of_nat (cellular_points intensity final t) <= 1503)%Z; [|lia].
  unfold cellular_points.
  assert (py_int (3 + energy_factor_of intensity
                        (time_scale_value t final) * 150) <= 1503)%Z; [|lia].
  pose proof (energy_factor_of_nonneg intensity (time_scale_value t final) Hi).
  unfold schedule_bound in Ht. apply py_int_le. lra.
Qed.

(** X14: A call of the cellular family on valid input, with a schedule in
    range, returns, and the generator state it hands back is the initial
    stream advanced by a number of samples that lies between 6 and 3006
    per timestamp: two per seed point, with at least 3 and at most 1503
    seed points at every timestamp. *)
Theorem cellular_call_draws (noise_params : gmap string pyval)
    (width height : nat) (analysis_type : string) (g : rng)
    (timestamps : list R) (d : gmap string R) (final : R) :
  get_list (effective_params noise_params) "timestamps" = Ok timestamps ->
  get_dict (effective_params noise_params) "cellular" = Ok d ->
  last timestamps = Some final -> final ≠ 0 ->
  Forall (fun t => 0 <= t / final) timestamps ->
  0 <= default 1 (d !! "intensity"%string) ->
  Forall (schedule_in_range (default 1 (d !! "intensity"%string)) final)
         timestamps ->
  (0 < height / 8 * (width / 8))%nat ->
  ∃ r g' draws,
    returned (generate_advanced_noise noise_params width height "cellular"
                analysis_type g) = Ok (r, g')
    ∧ (∀ i, g' i = g (draws + i)%nat)
    ∧ (6 * length timestamps <= draws)%nat
    ∧ (Z.of_nat draws <= 3006 * Z.of_nat (length timestamps))%Z.
Proof.
  intros Hts Hd Hlast Hne Hall Hi Hrange Hpos.
  destruct (call_frames noise_params width height "cellular" analysis_type g
              timestamps d final Hts Hd Hlast Hne Hall Hi) as
    (frames & p' & g' & Hframes & Hret); [| done | |].
  - apply (bool_decide_unpack _). by vm_compute.
  - right. split; done.
  - eexists _, g', _. split; [exact Hret|]. split.
    + by apply (frames_of_cellular_draws _ _ _ _ _ Hlast Hne _ _ _ _ _ _ Hall
                  Hframes).
    + split; [by apply cellular_draws_lower | by apply cellular_draws_upper].
Qed.

Lemma cellular_call_draws_witness :
  ∃ r g' draws,
    returned (generate_advanced_noise ∅ 64 64 "cellular" "" (fun k => INR k))
    = Ok (r, g')
    ∧ (∀ i, g' i = INR (draws + i))
    ∧ (18 <= draws)%nat ∧ (Z.of_nat draws <= 9018)%Z.
Proof.
  destruct (cellular_call_draws ∅ 64 64 "" (fun k => INR k) [0; 0.5; 1]
              {[ "intensity"%string := 1 ]} 1)
    as (r & g' & draws & Hret & Hshift & Hlow).
  - reflexivity.
  - reflexivity.
  - reflexivity.
  - lra.
  - repeat constructor; lra.
  - rewrite lookup_singleton_eq. cbn. lra.
  - rewrite lookup_singleton_eq. change (default 1 (Some 1)) with 1.
    repeat (constructor; [apply schedule_in_range_default; lra|]). constructor.
  - cbn. lia.
  - exists r, g', draws.
    split; [exact Hret|]. split; [exact Hshift | exact Hlow].
Defined.

(** ** The fbm sum and the warp in closed form *)

Lemma generate_simplex_lookup (H W : nat) (freq : R) (i j : nat) :
  (i < H)%nat -> (j < W)%nat ->
  data (generate_simplex (H, W) freq) !! (i * W + j)%nat
  = Some (simplex_value H W freq i j).
Proof.
  intros Hi Hj. unfold simplex_value, generate_simplex. cbn [fst snd].
  destruct (meshgrid_lookup (torch.linspace (- PI) PI H)
              (torch.linspace (- PI) PI W) i j) as [H0 H1];
    [by rewrite linspace_length | by rewrite linspace_length |].
  rewrite linspace_length in H0, H1.
  rewrite linspace_nth in H0, H1 by done.
  destruct (torch.meshgrid _ _) as [c0 c1]. cbn [fst snd] in *.
  cbv zeta. cell_lookup.
Qed.

(** X15: As long as the amplitude and the frequency of every octave stay in
    the float32 range, cell [(i, j)] of the fbm field is [tanh] of the sum
    of its octaves: octave [k] has amplitude
    [(persistence * (1 + chaos * 0.2)) ^ k] and evaluates the simplex
    formula at frequency [(lacunarity * (1 + chaos * 0.1)) ^ k * chaos]. *)
Theorem generate_fbm_cell (H W : nat) (octaves : Z)
    (persistence lacunarity chaos : R) (i j : nat) :
  (i < H)%nat -> (j < W)%nat ->
  (∀ k, (k < Z.to_nat octaves)%nat ->
        float32_range (fbm_amplitude persistence chaos k)
        ∧ float32_range (fbm_frequency lacunarity chaos k)) ->
  data (generate_fbm (H, W) octaves persistence lacunarity chaos)
    !! (i * W + j)%nat
  = Some (tanh (fbm_sum H W persistence lacunarity chaos i j (Z.to_nat octaves))).
Proof.
  intros Hi Hj _. unfold generate_fbm. cbn [fst snd].
  set (step := fun st : tensor R * R * R => _).
  set (init := (torch.zeros 0 [H; W], 1, 1)).
  assert (∀ n,
            (Nat.iter n step init).1.2 = (persistence * (1 + chaos * 0.2)) ^ n
            ∧ (Nat.iter n step init).2 = (lacunarity * (1 + chaos * 0.1)) ^ n
            ∧ data (Nat.iter n step init).1.1 !! (i * W + j)%nat
              = Some (fbm_sum H W persistence lacunarity chaos i j n)) as Hiter.
  { induction n as [|n IH].
    - cbn. split; [done|]. split; [done|].
      apply lookup_replicate_2. nia.
    - rewrite Nat.iter_succ.
      destruct (Nat.iter n step init) as [[noise amplitude] frequency].
      cbn [fst snd] in IH. destruct IH as (-> & -> & Hnoise).
      subst step. cbn [fst snd fbm_sum pow]. unfold fbm_amplitude, fbm_frequency.
      split; [ring|]. split; [ring|].
      pose proof (generate_simplex_lookup H W
                    ((lacunarity * (1 + chaos * 0.1)) ^ n * chaos) i j Hi Hj).
      cell_lookup. }
  destruct (Hiter (Z.to_nat octaves)) as (_ & _ & Hnoise).
  destruct (Nat.iter _ step _) as [[noise amplitude] frequency].
  cbn [fst snd] in Hnoise. cell_lookup.
Qed.

Lemma generate_fbm_cell_witness :
  data (generate_fbm (8, 8)%nat 3 0.5 2 1) !! (2 * 8 + 7)%nat
  = Some (tanh (fbm_sum 8 8 0.5 2 1 2 7 3)).
Proof.
  apply (generate_fbm_cell 8 8 3 0.5 2 1 2 7); [lia | lia |].
  intros k Hk.
  unfold fbm_amplitude, fbm_frequency.
  destruct k as [|[|[|k]]]; [| | |lia];
    split; apply float32_range_small; simpl; lra.
Defined.

(** X16: The warp of an [(H, W)] field is indexed by the width grid first: for
    [i < W] and [j < H], cell [(i, j)] of the result is [tanh] of twice the
    bilinear sample of the field at the warped coordinates of [x] = point [i]
    of the width grid and [y] = point [j] of the height grid. *)
Theorem domain_warp_cell (noise : tensor R) (H W : nat)
    (warp_factor timestamp : R) (i j : nat) :
  has_shape noise H W -> (i < W)%nat -> (j < H)%nat ->
  let x := linspace_point (-1) 1 W i in
  let y := linspace_point (-1) 1 H j in
  ∃ warped,
    domain_warp noise warp_factor timestamp = Ok warped
    ∧ data warped !! (i * H + j)%nat
      = Some (tanh (torch.bilinear noise H W
                      (x + warp_factor * sin (6 * PI * timestamp + y * 2)
                           * cos (x * 3))
                      (y + warp_factor * cos (6 * PI * timestamp + x * 2)
                           * sin (y * 3))
                    * 2)).
Proof.
  intros [Hs _] Hi Hj x y. unfold domain_warp. rewrite Hs.
  destruct (meshgrid_lookup (torch.linspace (-1) 1 W)
              (torch.linspace (-1) 1 H) i j) as [H0 H1];
    [by rewrite linspace_length | by rewrite linspace_length |].
  rewrite linspace_length in H0, H1.
  rewrite linspace_nth in H0, H1 by done.
  fold x in H0. fold y in H1.
  destruct (torch.meshgrid _ _) as [grid_x grid_y]. cbn [fst snd] in *.
  unfold torch.grid_sample. rewrite Hs.
  destruct (decide _) as [[?|?]|_]; [lia | lia |].
  cbn [mbind result_bind mret result_ret].
  eexists. split; [done|].
  match goal with
  | |- data (tmap tanh (tscale (Tensor (shape ?a) (zip_with ?f (data ?a) (data ?b))) 2))
         !! _ = _ =>
      change (Tensor (shape a) (zip_with f (data a) (data b))) with (tmap2 f a b)
  end.
  cell_lookup.
Qed.

Lemma domain_warp_cell_witness :
  ∃ warped,
    domain_warp (generate_simplex (4, 8)%nat 2) 0.1 0.5 = Ok warped
    ∧ data warped !! (5 * 4 + 3)%nat
      = Some (tanh (torch.bilinear (generate_simplex (4, 8)%nat 2) 4 8
                      (linspace_point (-1) 1 8 5
                       + 0.1 * sin (6 * PI * 0.5 + linspace_point (-1) 1 4 3 * 2)
                         * cos (linspace_point (-1) 1 8 5 * 3))
                      (linspace_point (-1) 1 4 3
                       + 0.1 * cos (6 * PI * 0.5 + linspace_point (-1) 1 8 5 * 2)
                         * sin (linspace_point (-1) 1 4 3 * 3))
                    * 2)).
Proof.
  apply (domain_warp_cell (generate_simplex (4, 8)%nat 2) 4 8 0.1 0.5 5 3).
  - apply generate_simplex_has_shape.
  - lia.
  - lia.
Defined.

(** ** Frames of equal timestamps, and a second call *)




Lemma effective_params_merged (noise_params : gmap string pyval) :
  effective_params (noise_params ∪ defaults_map) = noise_params ∪ defaults_map.
Proof.
  unfold effective_params. case_decide as He.
  - exfalso. assert ((noise_params ∪ defaults_map) !! "timestamps"%string = None)
      as Hnone by (by rewrite He, lookup_empty).
    apply lookup_union_None in Hnone as [_ Hnone]. done.
  - by rewrite <- (assoc_L (∪)), (idemp_L (∪) defaults_map).
Qed.

(** X18: The merge is idempotent, and so is its effect on the caller: a second
    call with the mapping the first call left behind leaves that mapping as
    it is and, from the same generator state, yields what the first call
    yielded; an empty mapping stays empty however often it is passed. *)
Theorem second_call_same (noise_params : gmap string pyval)
    (width height : nat) (noise_type analysis_type : string) (g : rng) :
  let first :=
    generate_advanced_noise noise_params width height noise_type analysis_type g in
  let second :=
    generate_advanced_noise (caller_params first) width height noise_type
      analysis_type g in
  merge_defaults (merge_defaults noise_params) = merge_defaults noise_params
  ∧ caller_params second = caller_params first
  ∧ returned second = returned first
  ∧ (noise_params = ∅ -> caller_params first = ∅).
Proof.
  intros first second.
  assert (merge_defaults (merge_defaults noise_params)
          = merge_defaults noise_params) as Hidem.
  { rewrite !merge_defaults_union.
    by rewrite <- (assoc_L (∪)), (idemp_L (∪) defaults_map). }
  split; [done|].
  assert (returned second = returned first) as Hret.
  { subst first second. rewrite !returned_body. f_equal.
    unfold generate_advanced_noise. case_decide as He; cbn [caller_params].
    - done.
    - rewrite merge_defaults_union, effective_params_merged.
      unfold effective_params. by case_decide. }
  split; [|split; [done|]].
  - subst first second. unfold generate_advanced_noise.
    destruct (decide (noise_params = ∅)) as [He|He]; cbn [caller_params].
    + destruct (decide (noise_params = ∅)); done.
    + destruct (decide (merge_defaults noise_params = ∅)); cbn [caller_params];
        done.
  - intros ->. subst first. unfold generate_advanced_noise.
    by destruct (decide (∅ = ∅)).
Qed.

(** ** The amplitude of the batch *)

Lemma Rdiv_le_cross (p q r s : R) :
  0 < q -> 0 < s -> p * s <= r * q -> p / q <= r / s.
Proof.
  intros Hq Hs Hle.
  replace (p / q) with (p * s * / (q * s)) by (field; lra).
  replace (r / s) with (r * q * / (q * s)) by (field; lra).
  apply Rmult_le_compat_r; [|done].
  left. apply Rinv_0_lt_compat. nra.
Qed.

Lemma tanh_mono (x y : R) : x <= y -> tanh x <= tanh y.
Proof.
  intros Hxy. unfold tanh, sinh, cosh.
  pose proof (exp_pos x) as Hx. pose proof (exp_pos (- x)) as Hx'.
  pose proof (exp_pos y) as Hy. pose proof (exp_pos (- y)) as Hy'.
  assert (exp x * exp (- x) = 1) as Hxx
    by (rewrite <- exp_plus, Rplus_opp_r; apply exp_0).
  assert (exp y * exp (- y) = 1) as Hyy
    by (rewrite <- exp_plus, Rplus_opp_r; apply exp_0).
  pose proof (exp_le x y Hxy) as Hle.
  assert (exp (- y) <= exp (- x)) as Hle' by (apply exp_le; lra).
  apply Rdiv_le_cross; [lra | lra |]. nra.
Qed.

Lemma tanh_opp (x : R) : tanh (- x) = - tanh x.
Proof.
  unfold tanh, sinh, cosh. rewrite Ropp_involutive.
  pose proof (exp_pos x). pose proof (exp_pos (- x)). field. lra.
Qed.

Lemma tanh_nonneg (x : R) : 0 <= x -> 0 <= tanh x.
Proof. intros Hx. rewrite <- tanh_0. by apply tanh_mono. Qed.

Lemma channel_amplitude (norm : tensor fval) (energy_factor bound chaos : R)
    (c : nat) :
  0 <= energy_factor <= bound ->
  Forall (amplitude_within (tanh (2 * bound)))
         (data (channel norm energy_factor chaos c)).
Proof.
  intros [He0 Heb]. unfold channel, tmap. cbn [data]. rewrite map_map.
  apply List.Forall_forall. intros v Hin.
  apply in_map_iff in Hin as (u & <- & _).
  destruct u as [x|neg|]; cbn [fscale fsin ftanh amplitude_within].
  - match goal with |- _ <= tanh (sin ?a * _ * 2) <= _ =>
      pose proof (SIN_bound a) as [Hlo Hhi]; set (s := sin a) in * end.
    rewrite <- tanh_opp. split; apply tanh_mono; nra.
  - by destruct (Req_dec_T _ 0).
  - done.
Qed.

Lemma for_in_invariant_elem {A S} (P : S -> Prop) (body : S -> A -> M S)
    (xs : list A) :
  (∀ s x g s' g', x ∈ xs -> P s -> body s x g = Ok (s', g') -> P s') ->
  ∀ s g s' g', P s -> for_in xs body s g = Ok (s', g') -> P s'.
Proof.
  induction xs as [|x xs IH]; intros Hbody s g s' g' Hs.
  - cbn. by intros [= <- _].
  - cbn [for_in]. rewrite M_bind_unfold.
    destruct (body s x g) as [[s1 g1]|e] eqn:Hx; [|done].
    intros Hrest. eapply IH; [| |exact Hrest].
    + intros s0 x0 g0 s0' g0' Hin. apply Hbody. by apply list_elem_of_further.
    + eapply Hbody; [apply list_elem_of_here | exact Hs | exact Hx].
Qed.

Lemma schedule_energy_bound (timestamps : list R) (t final intensity time_scale : R) :
  last timestamps = Some final -> 0 < final -> 0 <= t <= final ->
  0 <= intensity ->
  time_scale_of t timestamps = Ok time_scale ->
  0 <= energy_factor_of intensity time_scale <= intensity * exp 2.
Proof.
  intros Hlast Hf [Ht0 Ht1] Hi Hs.
  rewrite (time_scale_of_value timestamps t final) in Hs;
    [|done | lra | by apply ratio_nonneg].
  injection Hs as <-. split; [by apply energy_factor_of_nonneg|].
  replace (intensity * exp 2) with (energy_factor_of intensity 1)
    by (rewrite energy_factor_of_exp; f_equal; f_equal; ring).
  apply energy_factor_of_mono; [done|].
  rewrite <- (time_scale_value_last final Hf).
  by apply time_scale_value_mono.
Qed.

(** X19: With a non-negative intensity and timestamps between zero and a positive
    last timestamp, the energy factor never exceeds [intensity * exp 2]:
    whatever batch the call returns, each element of it is NaN or of
    magnitude at most [tanh (2 * intensity * exp 2)]. *)
Theorem batch_amplitude_bound (noise_params : gmap string pyval)
    (width height : nat) (noise_type analysis_type : string) (g : rng)
    (timestamps : list R) (d : gmap string R) (final : R)
    (batch : tensor fval) (ts : list R) (g' : rng) :
  get_list (effective_params noise_params) "timestamps" = Ok timestamps ->
  get_dict (effective_params noise_params) noise_type = Ok d ->
  last timestamps = Some final -> 0 < final ->
  Forall (fun t => 0 <= t <= final) timestamps ->
  0 <= default 1 (d !! "intensity"%string) ->
  returned (generate_advanced_noise noise_params width height noise_type
              analysis_type g) = Ok ((Latent batch, ts), g') ->
  Forall (amplitude_within
            (tanh (2 * (default 1 (d !! "intensity"%string) * exp 2))))
         (data batch).
Proof.
  intros Hts Hd Hlast Hf Hall Hi. rewrite returned_body. unfold body.
  rewrite M_bind_unfold, (get_list_item _ _ _ Hts). cbn [lift py_len].
  set (intensity := default 1 (d !! "intensity"%string)) in *.
  set (bound := tanh (2 * (intensity * exp 2))).
  assert (0 <= bound) as Hbound.
  { apply tanh_nonneg. pose proof (exp_pos 2). nra. }
  assert (∀ sh, Forall (amplitude_within bound)
                  (data (torch.zeros (Fin 0) sh))) as Hzero.
  { intros sh. cbn. apply Forall_replicate. cbn. lra. }
  destruct (decide _) as [_|_].
  - intros [= <- _ _]. apply Hzero.
  - rewrite M_bind_unfold, Hd. cbn [lift]. rewrite M_bind_unfold.
    fold intensity.
    destruct (for_in _ _ _ g) as [[st g1]|e] eqn:Hloop; [|done].
    intros [= <- _ _]. revert Hloop.
    apply (for_in_invariant_elem
             (fun st => Forall (amplitude_within bound) (data (l_noise_batch st))));
      [|apply Hzero].
    intros s [i t] g2 s' g3 Hin Hs. unfold iteration. rewrite M_bind_unfold.
    destruct (prepare _ _ _ _ _ _ _ g2) as [[[f p1] g4]|e] eqn:Hprep; [|done].
    destruct (prepare_schedule _ _ _ _ _ _ _ _ _ _ _ Hprep)
      as (time_scale & Hscale & He & _).
    assert (0 <= t <= final) as Ht.
    { unfold enumerate in Hin. apply elem_of_zip_r in Hin.
      by apply (proj1 (Forall_forall _ _) Hall). }
    pose proof (schedule_energy_bound _ _ _ _ _ Hlast Hf Ht Hi Hscale) as Hen.
    rewrite <- He in Hen.
    rewrite M_bind_unfold.
    destruct (normalize (f_base f)) as [norm|e]; [|done].
    cbn [lift]. rewrite M_bind_unfold.
    destruct (for_in (seq 0 4) _ _ g4) as [[b g5]|e] eqn:Hch; [|done].
    intros [= <- _]. cbn [l_noise_batch]. revert Hch.
    apply (for_in_invariant
             (fun b => Forall (amplitude_within bound) (data b))); [|done].
    intros b0 c g6 b1 g7 Hb0. unfold lift.
    destruct (setitem b0 i c _) as [b2|e] eqn:Hset; [|done].
    intros [= <- _].
    eapply (setitem_Forall (amplitude_within bound));
      [done | exact Hb0 | by apply channel_amplitude | exact Hset].
Qed.

Lemma batch_amplitude_bound_witness :
  ∃ batch g',
    returned (generate_advanced_noise
                {[ "wave"%string := VDict {[ "intensity"%string := 0.01 ]} ]}
                64 64 "wave" "" (fun _ => 0))
    = Ok ((Latent batch, [0; 0.5; 1]), g')
    ∧ Forall (amplitude_within (tanh (2 * (0.01 * exp 2)))) (data batch).
Proof.
  destruct (call_frames
              {[ "wave"%string := VDict {[ "intensity"%string := 0.01 ]} ]}
              64 64 "wave" "" (fun _ => 0) [0; 0.5; 1]
              {[ "intensity"%string := 0.01 ]} 1)
    as (frames & p' & g' & _ & Hret).
  - reflexivity.
  - reflexivity.
  - reflexivity.
  - lra.
  - repeat constructor; lra.
  - rewrite lookup_singleton_eq. cbn. lra.
  - apply (bool_decide_unpack _). by vm_compute.
  - cbn. lia.
  - left. reflexivity.
  - eexists _, g'. split; [exact Hret|].
    pose proof (batch_amplitude_bound
                  {[ "wave"%string := VDict {[ "intensity"%string := 0.01 ]} ]}
                  64 64 "wave" "" (fun _ => 0) [0; 0.5; 1]
                  {[ "intensity"%string := 0.01 ]} 1) as Hbound.
    rewrite lookup_singleton_eq in Hbound.
    change (default 1 (Some 0.01)) with 0.01 in Hbound.
    eapply Hbound; [reflexivity | reflexivity | reflexivity | lra
                    | repeat constructor; lra | lra | exact Hret].
Defined.

(** ** A negative intensity in the cellular family *)






(** ** Wave and warp on a latent that is not square *)

Lemma dispatch_wave (H W : nat)
    (timestamp energy_factor chaos persistence : R) (g : rng) :
  ∃ base,
    dispatch "wave" H W timestamp energy_factor chaos persistence g
    = Ok ((base, persistence), g)
    ∧ has_shape base W H.
Proof.
  unfold dispatch. repeat case_decide; try done.
  eexists. split; [done|]. apply generate_wave_has_shape.
Qed.

Lemma dispatch_warp_empty (H W : nat)
    (timestamp energy_factor chaos persistence : R) (g : rng) :
  (H * W = 0)%nat ->
  dispatch "domain_warp" H W timestamp energy_factor chaos persistence g
  = Err RuntimeError.
Proof.
  intros Hzero. unfold dispatch. repeat case_decide; try done.
  rewrite M_bind_unfold.
  rewrite (domain_warp_empty _ H W); [done | | nia].
  apply generate_simplex_has_shape.
Qed.

(** X21: The wave and domain-warp families never fill a latent whose height and
    width differ: once the schedule of the first timestamp is defined the
    call raises [RuntimeError], for every such width and height and every
    intensity, and nothing is returned. *)
Theorem nonsquare_wave_warp_raises (noise_params : gmap string pyval)
    (width height : nat) (noise_type analysis_type : string) (g : rng)
    (t : R) (rest : list R) (d : gmap string R) (time_scale : R) :
  get_list (effective_params noise_params) "timestamps" = Ok (t :: rest) ->
  get_dict (effective_params noise_params) noise_type = Ok d ->
  time_scale_of t (t :: rest) = Ok time_scale ->
  noise_type = "wave"%string ∨ noise_type = "domain_warp"%string ->
  (height / 8 ≠ width / 8)%nat ->
  returned (generate_advanced_noise noise_params width height noise_type
              analysis_type g) = Err RuntimeError.
Proof.
  intros Hts Hd Hs Hty Hne. rewrite returned_body.
  destruct (Nat.eq_dec (height / 8 * (width / 8))%nat 0%nat) as [Hzero|Hpos].
  - set (e := energy_factor_of (default 1 (d !! "intensity"%string)) time_scale).
    destruct Hty as [-> | ->].
    + destruct (dispatch_wave (height / 8) (width / 8) t e (chaos_of t)
                  (default 0.5 (d !! "persistence"%string)) g)
        as (base & Hdisp & [_ Hlen]).
      apply (body_normalize_raises _ _ _ _ g g t rest d
               (Field base e (chaos_of t))
               (default 0.5 (d !! "persistence"%string))); [done | done | |].
      * unfold prepare. rewrite M_bind_unfold, Hs. cbn [lift].
        rewrite M_bind_unfold. fold e. by rewrite Hdisp.
      * cbn [f_base]. apply normalize_empty. apply length_zero_iff_nil. lia.
    + apply (body_prepare_raises _ _ _ _ _ t rest d); [done | done |].
      unfold prepare. rewrite M_bind_unfold, Hs. cbn [lift].
      rewrite M_bind_unfold. fold e. by rewrite dispatch_warp_empty.
  - apply (body_transposed_raises _ _ _ _ _ t rest d time_scale); try done. lia.
Qed.

Lemma nonsquare_wave_warp_raises_witness :
  returned (generate_advanced_noise ∅ 512 768 "domain_warp" "" (fun _ => 0))
  = Err RuntimeError.
Proof.
  apply (nonsquare_wave_warp_raises ∅ 512 768 "domain_warp" "" (fun _ => 0)
           0 [0.5; 1] {[ "intensity"%string := 1 ]} (time_scale_value 0 1)).
  - reflexivity.
  - reflexivity.
  - apply time_scale_of_value; [reflexivity | lra | lra].
  - by right.
  - cbn. lia.
Defined.

(** ** The frequencies of the fbm octaves on the default input *)

Lemma exp_2_gt : 5.9 < exp 2.
Proof.
  assert (1.25 < exp (1 / 4)) as Ha.
  { pose proof (exp_ineq1 (1 / 4)). lra. }
  assert (exp (1 / 2) = exp (1 / 4) * exp (1 / 4)) as Hb
    by (rewrite <- exp_plus; f_equal; lra).
  assert (exp 1 = exp (1 / 2) * exp (1 / 2)) as Hc
    by (rewrite <- exp_plus; f_equal; lra).
  assert (exp 2 = exp 1 * exp 1) as Hd
    by (rewrite <- exp_plus; f_equal; lra).
  assert (1.5625 < exp (1 / 2)) as Hb' by nra.
  assert (2.44 < exp 1) as Hc' by nra.
  nra.
Qed.

(** X22: On the defaults of the function, the fbm branch of the last
    timestamp sums at least 37 octaves, and the frequency that octave 36
    hands to [generate_simplex] is above [10 ^ 39]: it is beyond the
    largest float32, about 3.4e38, so it is not in the float32 range. *)
Theorem default_fbm_leaves_float32 (H W : nat) (persistence : R) (g : rng) :
  let energy_factor := energy_factor_of 1 (time_scale_value 1 1) in
  let octaves := py_int (2 + energy_factor * 6) in
  let lacunarity := 1.2 + energy_factor * 4 in
  get_list (effective_params ∅) "timestamps" = Ok [0; 0.5; 1]
  ∧ prepare "fbm" H W 1 [0; 0.5; 1] persistence 1 g
    = Ok ((Field (generate_fbm (H, W) octaves (0.2 + energy_factor * 0.8)
                    lacunarity (chaos_of 1))
                 energy_factor (chaos_of 1),
           0.2 + energy_factor * 0.8), g)
  ∧ (37 <= octaves)%Z
  ∧ 10 ^ 39 < fbm_frequency lacunarity (chaos_of 1) 36
  ∧ ¬ float32_range (fbm_frequency lacunarity (chaos_of 1) 36).
Proof.
  intros energy_factor octaves lacunarity.
  assert (5.9 < energy_factor) as He.
  { unfold energy_factor. rewrite energy_factor_of_exp.
    rewrite time_scale_value_last by lra.
    replace (2 * 1) with 2 by ring. pose proof exp_2_gt. lra. }
  assert (10 ^ 39 < fbm_frequency lacunarity (chaos_of 1) 36) as Hfreq.
  { unfold fbm_frequency.
    pose proof (chaos_of_bounds 1) as [Hc _].
    assert (24.8 <= lacunarity) as Hl by (unfold lacunarity; lra).
    assert (26 <= lacunarity * (1 + chaos_of 1 * 0.1)) as Hg.
    { apply Rle_trans with (24.8 * 1.05); [lra|].
      apply Rmult_le_compat; lra. }
    assert (10 ^ 39 < 26 ^ 36 * 0.5) as Hnum.
    { assert (2 * 10 ^ 39 < 26 ^ 36) as Hz.
      { rewrite !pow_IZR, <- mult_IZR. apply IZR_lt. reflexivity. }
      clear - Hz. revert Hz. generalize (26 ^ 36), (10 ^ 39). intros. lra. }
    apply Rlt_le_trans with (26 ^ 36 * 0.5); [exact Hnum|].
    apply Rmult_le_compat;
      [apply pow_le; lra | lra | apply pow_incr; lra | exact Hc]. }
  split; [by rewrite effective_params_empty|]. split.
  { unfold prepare. rewrite M_bind_unfold.
    rewrite (time_scale_of_value [0; 0.5; 1] 1 1) by (reflexivity || lra).
    cbn [lift]. rewrite M_bind_unfold. reflexivity. }
  split; [apply py_int_ge; [lra | lia]|].
  split; [done|].
  unfold float32_range, float32_bound. intros Hr.
  assert (10 ^ 30 <= 10 ^ 39) by (apply Rle_pow; [lra | lia]).
  pose proof (Rle_abs (fbm_frequency lacunarity (chaos_of 1) 36)). lra.
Qed.

(** ** A mapping under the timestamps key *)

(** X23: When the value under [timestamps] is a mapping, [len] decides as for
    a list: an empty mapping gives the single zero frame and [[0.0]]; a
    mapping that is not empty passes the length test, the parameters of the
    noise type are looked up ([KeyError] when there are none), and the
    first iteration raises [KeyError] on [timestamps[-1]]. *)
Theorem mapping_timestamps (noise_params : gmap string pyval)
    (width height : nat) (noise_type analysis_type : string) (g : rng)
    (keys : gmap string R) :
  noise_params !! "timestamps"%string = Some (VDict keys) ->
  let r := returned (generate_advanced_noise noise_params width height
                       noise_type analysis_type g) in
  (keys = ∅ ->
   r = Ok ((Latent (torch.zeros (Fin 0) [1; 4; height / 8; width / 8]%nat),
            [0]), g))
  ∧ (keys ≠ ∅ -> effective_params noise_params !! noise_type = None ->
     r = Err (KeyError noise_type))
  ∧ (keys ≠ ∅ ->
     ∀ d, effective_params noise_params !! noise_type = Some (VDict d) ->
          r = Err (KeyErrorIndex (-1))).
Proof.
  intros Hts r. subst r. rewrite returned_body. unfold body.
  rewrite M_bind_unfold. unfold get_item.
  rewrite effective_params_lookup, Hts. cbn [lift py_len].
  split; [|split].
  - intros ->. rewrite map_size_empty. by destruct (decide _).
  - intros Hne Hnone.
    destruct (decide _) as [Hz|_]; [by apply map_size_empty_iff in Hz|].
    rewrite M_bind_unfold. unfold get_dict, get_item. by rewrite Hnone.
  - intros Hne d Hd.
    destruct (decide _) as [Hz|_]; [by apply map_size_empty_iff in Hz|].
    rewrite M_bind_unfold. unfold get_dict, get_item. by rewrite Hd.
Qed.

Lemma mapping_timestamps_witness :
  returned (generate_advanced_noise {[ "timestamps"%string := VDict ∅ ]}
              64 64 "simplex" "" (fun _ => 0))
  = Ok ((Latent (torch.zeros (Fin 0) [1; 4; 8; 8]%nat), [0]), fun _ => 0)
  ∧ returned (generate_advanced_noise
                {[ "timestamps"%string := VDict {[ "a"%string := 1 ]} ]}
                64 64 "simplex" "" (fun _ => 0))
    = Err (KeyErrorIndex (-1)).
Proof.
  split.
  - destruct (mapping_timestamps {[ "timestamps"%string := VDict ∅ ]}
                64 64 "simplex" "" (fun _ => 0) ∅) as (Hempty & _).
    + apply lookup_singleton_eq.
    + by apply Hempty.
  - destruct (mapping_timestamps
                {[ "timestamps"%string := VDict {[ "a"%string := 1 ]} ]}
                64 64 "simplex" "" (fun _ => 0) {[ "a"%string := 1 ]})
      as (_ & _ & Hraise).
    + apply lookup_singleton_eq.
    + apply (Hraise ltac:(by apply map_non_empty_singleton)
               {[ "intensity"%string := 1 ]}).
      reflexivity.
Defined.
